(** * navix-ai: the HACOPSO route optimiser, its Pareto archive, objective
    evaluator and constraint handler, embedded from [src/app/engine]. *)

From Stdlib Require Import QArith Qround Lqa Lia.
From stdpp Require Import base tactics option list strings sorting.

(** ** NumPy's [float64], idealised

    Finite values are exact rationals, kept in lowest terms so that equal
    numbers are equal terms; the three special values of IEEE 754 follow the
    rules Python and NumPy apply to them.  Rounding is left out. *)
Inductive float64 : Type :=
| Fin (q : Q)
| PInf
| NInf
| NaN.

Module F64.
Local Open Scope Q_scope.

Definition zero : float64 := Fin 0.
Definition one : float64 := Fin 1.
Definition inf : float64 := PInf.

Definition is_nan (x : float64) : bool :=
  match x with NaN => true | _ => false end.

Definition is_finite (x : float64) : bool :=
  match x with Fin _ => true | _ => false end.

(** [a <= b], [a < b] and [a == b]: every comparison with NaN is false. *)
Definition le (a b : float64) : bool :=
  match a, b with
  | NaN, _ | _, NaN => false
  | NInf, _ => true
  | _, PInf => true
  | Fin x, Fin y => Qle_bool x y
  | _, _ => false
  end.

Definition lt (a b : float64) : bool :=
  match a, b with
  | NaN, _ | _, NaN => false
  | PInf, _ => false
  | _, NInf => false
  | Fin x, Fin y => negb (Qle_bool y x)
  | _, _ => true
  end.

Definition eqb (a b : float64) : bool :=
  match a, b with
  | Fin x, Fin y => Qeq_bool x y
  | PInf, PInf | NInf, NInf => true
  | _, _ => false
  end.

Definition gt (a b : float64) : bool := lt b a.
Definition ge (a b : float64) : bool := le b a.

Definition neg (a : float64) : float64 :=
  match a with
  | Fin x => Fin (- x)
  | PInf => NInf
  | NInf => PInf
  | NaN => NaN
  end.

Definition add (a b : float64) : float64 :=
  match a, b with
  | NaN, _ | _, NaN => NaN
  | PInf, NInf | NInf, PInf => NaN
  | PInf, _ | _, PInf => PInf
  | NInf, _ | _, NInf => NInf
  | Fin x, Fin y => Fin (Qred (x + y))
  end.

Definition sub (a b : float64) : float64 := add a (neg b).

(** The sign of a finite rational, for products and quotients with an infinity. *)
Definition sign_inf (positive : bool) : float64 := if positive then PInf else NInf.

Definition mul (a b : float64) : float64 :=
  match a, b with
  | NaN, _ | _, NaN => NaN
  | Fin x, Fin y => Fin (Qred (x * y))
  | Fin x, PInf | PInf, Fin x =>
      if Qeq_bool x 0 then NaN else sign_inf (Qle_bool 0 x)
  | Fin x, NInf | NInf, Fin x =>
      if Qeq_bool x 0 then NaN else sign_inf (negb (Qle_bool 0 x))
  | PInf, PInf | NInf, NInf => PInf
  | PInf, NInf | NInf, PInf => NInf
  end.

(** NumPy's true division: a zero divisor gives an infinity or NaN (with a
    warning), never an exception. *)
Definition div (a b : float64) : float64 :=
  match a, b with
  | NaN, _ | _, NaN => NaN
  | Fin x, Fin y =>
      if Qeq_bool y 0
      then (if Qeq_bool x 0 then NaN else sign_inf (Qle_bool 0 x))
      else Fin (Qred (x / y))
  | Fin _, (PInf | NInf) => Fin 0
  | PInf, Fin y => sign_inf (Qle_bool 0 y)
  | NInf, Fin y => sign_inf (negb (Qle_bool 0 y))
  | (PInf | NInf), (PInf | NInf) => NaN
  end.

(** Python's builtin [max(a, b)] and [min(a, b)]: the first argument unless
    the second compares strictly beyond it. *)
Definition py_max (a b : float64) : float64 := if gt b a then b else a.
Definition py_min (a b : float64) : float64 := if lt b a then b else a.

(** [np.maximum], [np.minimum] and [np.clip]: NaN propagates. *)
Definition np_maximum (a b : float64) : float64 :=
  if is_nan a then a else if is_nan b then b else if lt a b then b else a.
Definition np_minimum (a b : float64) : float64 :=
  if is_nan a then a else if is_nan b then b else if lt b a then b else a.
Definition clip (x lo hi : float64) : float64 :=
  np_minimum (np_maximum x lo) hi.

(** Python's [x % m] on floats for a finite positive modulus. *)
Definition fmod (a : float64) (m : Q) : float64 :=
  match a with
  | Fin x => Fin (Qred (x - m * inject_Z (Qfloor (x / m))))
  | _ => NaN
  end.

Definition of_nat (n : nat) : float64 := Fin (inject_Z (Z.of_nat n)).

End F64.

Declare Scope f64_scope.
Delimit Scope f64_scope with F.
Bind Scope f64_scope with float64.
Infix "+" := F64.add : f64_scope.
Infix "-" := F64.sub : f64_scope.
Infix "*" := F64.mul : f64_scope.
Infix "/" := F64.div : f64_scope.
Notation "- x" := (F64.neg x) : f64_scope.
Infix "<=?" := F64.le : f64_scope.
Infix "<?" := F64.lt : f64_scope.
Infix ">?" := F64.gt : f64_scope.
Infix ">=?" := F64.ge : f64_scope.
Infix "==?" := F64.eqb (at level 70) : f64_scope.

#[global] Instance float64_inhabited : Inhabited float64 := populate NaN.

(** Literals of the source, as exact rationals. *)
Definition f64 (n : Z) (d : positive) : float64 := Fin (Qred (n # d)).

Example f64_reduced : f64 2 10 = f64 1 5.
Proof. reflexivity. Qed.

(** ** Arrays

    A [Route] is an [(N, 2)] array of [[lat, lon]] rows; an objective vector, a
    speed profile and a weight vector are one-dimensional arrays. *)
Abbreviation waypoint := (float64 * float64)%type (only parsing).
Abbreviation Route := (list waypoint) (only parsing).
Abbreviation vec := (list float64) (only parsing).

(** [[l[i] for i in indices]]; Python raises [IndexError] on an index out of
    range, which then contributes no element here. *)
Definition select {A} (l : list A) (indices : list nat) : list A :=
  omap (fun i => l !! i) indices.

(** [np.dot] of two vectors of one length. *)
Definition np_dot (a b : vec) : float64 :=
  foldl F64.add F64.zero (zip_with F64.mul a b).

(** Componentwise [==] of two vectors of one length. *)
Definition vec_eqb (a b : vec) : bool :=
  (length a =? length b)%nat && forallb id (zip_with F64.eqb a b).

(** [np.argmin]: the first index of the least value; a NaN counts as least. *)
Fixpoint argmin_from (best_i : nat) (best : float64) (i : nat) (l : vec) : nat :=
  match l with
  | [] => best_i
  | x :: l' =>
      if F64.is_nan best then best_i
      else if F64.is_nan x || F64.lt x best then argmin_from i x (S i) l'
      else argmin_from best_i best (S i) l'
  end.

Definition np_argmin (l : vec) : nat :=
  match l with
  | [] => 0%nat
  | x :: l' => argmin_from 0 x 1 l'
  end.

(** [np.argsort] is used with its default sort kind, which is not stable and
    whose order among equal keys NumPy leaves open: the development takes it
    as a parameter and states what it relies on as [argsort_spec]. *)
Abbreviation argsort_fn := (vec -> list nat) (only parsing).

(** The order NumPy sorts floats in: ascending, NaN last. *)
Definition np_sort_le (a b : float64) : bool :=
  F64.is_nan b || (negb (F64.is_nan a) && F64.le a b).

(** The order on indices that sorting by [keys] induces. *)
Definition key_le (keys : vec) (i j : nat) : Prop :=
  np_sort_le (keys !!! i) (keys !!! j) = true.

Record argsort_spec (argsort : argsort_fn) : Prop := {
  argsort_perm : forall keys : vec, argsort keys ≡ₚ seq 0 (length keys);
  argsort_sorted : forall (keys : vec) (i j ki kj : nat) (a b : float64),
    (i <= j)%nat ->
    argsort keys !! i = Some ki -> argsort keys !! j = Some kj ->
    keys !! ki = Some a -> keys !! kj = Some b ->
    np_sort_le a b = true
}.

(** A stable insertion sort of the indices, the instance used in examples
    (NumPy itself sorts arrays of at most 16 elements by insertion). *)
Fixpoint insert_sorted (keys : vec) (i : nat) (sorted : list nat) : list nat :=
  match sorted with
  | [] => [i]
  | j :: rest =>
      if np_sort_le (keys !!! j) (keys !!! i)
      then j :: insert_sorted keys i rest
      else i :: j :: rest
  end.

Definition stable_argsort : argsort_fn :=
  fun keys => foldl (fun acc i => insert_sorted keys i acc) [] (seq 0 (length keys)).

(** ** src/app/engine/pareto.py *)
Module Pareto.

(** [dominates(a, b)]: [np.all(a <= b) and np.any(a < b)]. *)
Definition dominates (a b : vec) : bool :=
  forallb id (zip_with F64.le a b) && existsb id (zip_with F64.lt a b).

(** [front[:, m]]. *)
Definition column (front : list vec) (m : nat) : vec :=
  map (fun row => row !!! m) front.

(** The body of the loop over the interior solutions of one objective. *)
Definition crowding_interior (indices : list nat) (sorted_values : vec)
    (obj_range : float64) (distances : vec) (i : nat) : vec :=
  let k := indices !!! i in
  <[k := (distances !!! k
          + (sorted_values !!! (i + 1)%nat - sorted_values !!! (i - 1)%nat)
            / obj_range)%F]> distances.

(** The body of the loop over the objectives. *)
Definition crowding_objective (argsort : argsort_fn) (front : list vec)
    (n : nat) (distances : vec) (m : nat) : vec :=
  let col := column front m in
  let indices := argsort col in
  let sorted_values := map (fun i => col !!! i) indices in
  let distances := <[indices !!! 0%nat := PInf]> distances in
  let distances := <[indices !!! (n - 1)%nat := PInf]> distances in
  let obj_range := (sorted_values !!! (n - 1)%nat - sorted_values !!! 0%nat)%F in
  if (obj_range <? f64 1 10000000000)%F then distances
  else foldl (crowding_interior indices sorted_values obj_range) distances
         (seq 1 (n - 2)).

Definition crowding_distance (argsort : argsort_fn) (front : list vec) : vec :=
  let n := length front in
  if (n =? 0)%nat then []
  else if (n <=? 2)%nat then replicate n PInf
  else
    let n_objectives := length (front !!! 0%nat) in
    foldl (crowding_objective argsort front n) (replicate n F64.zero)
      (seq 0 n_objectives).

(** Per-entry metadata: a dictionary from keys to lists of numbers. *)
Definition meta : Type := list (string * list float64).

Record ParetoArchiveManager : Type := {
  max_size : nat;
  solutions : list Route;
  objectives : list vec;
  metadata : list meta
}.

Definition __init__ (max_size : nat) : ParetoArchiveManager :=
  {| max_size := max_size; solutions := []; objectives := []; metadata := [] |}.

Definition size (self : ParetoArchiveManager) : nat := length (solutions self).

(** [_truncate]: keep the first [max_size] indices of [argsort(-distances)]. *)
Definition truncate_indices (argsort : argsort_fn) (self : ParetoArchiveManager)
    : list nat :=
  take (max_size self)
    (argsort (map F64.neg (crowding_distance argsort (objectives self)))).

Definition _truncate (argsort : argsort_fn) (self : ParetoArchiveManager)
    : ParetoArchiveManager :=
  if (length (solutions self) <=? max_size self)%nat then self
  else
    let indices := truncate_indices argsort self in
    {| max_size := max_size self;
       solutions := select (solutions self) indices;
       objectives := select (objectives self) indices;
       metadata := select (metadata self) indices |}.

(** [[i for i, existing in enumerate(objectives) if not dominates(new, existing)]]. *)
Fixpoint indices_to_keep (objective_values : vec) (i : nat) (objs : list vec)
    : list nat :=
  match objs with
  | [] => []
  | existing :: rest =>
      if dominates objective_values existing
      then indices_to_keep objective_values (S i) rest
      else i :: indices_to_keep objective_values (S i) rest
  end.

(** [add]: the returned flag and the archive after the call. *)
Definition add (argsort : argsort_fn) (self : ParetoArchiveManager)
    (solution : Route) (objective_values : vec) (md : option meta)
    : bool * ParetoArchiveManager :=
  if existsb (fun existing => dominates existing objective_values) (objectives self)
  then (false, self)
  else
    let keep := indices_to_keep objective_values 0 (objectives self) in
    let self1 :=
      {| max_size := max_size self;
         solutions := select (solutions self) keep ++ [solution];
         objectives := select (objectives self) keep ++ [objective_values];
         metadata := select (metadata self) keep ++ [default [] md] |} in
    (true,
     if (max_size self1 <? length (solutions self1))%nat
     then _truncate argsort self1 else self1).

(** [get_compromise]: column-wise range normalisation, weighted sum, argmin. *)
Definition column_min (col : vec) : float64 :=
  match col with [] => NaN | x :: l => foldl F64.np_minimum x l end.
Definition column_max (col : vec) : float64 :=
  match col with [] => NaN | x :: l => foldl F64.np_maximum x l end.

Definition safe_range (lo hi : float64) : float64 :=
  let r := (hi - lo)%F in
  if (r <? f64 1 10000000000)%F then F64.one else r.

Definition normalize_row (obj_min obj_range row : vec) : vec :=
  zip_with F64.div (zip_with F64.sub row obj_min) obj_range.

Definition get_compromise (self : ParetoArchiveManager) (weights : vec)
    : option (Route * vec) :=
  match objectives self with
  | [] => None
  | first :: _ =>
      let cols := map (column (objectives self)) (seq 0 (length first)) in
      let obj_min := map column_min cols in
      let obj_max := map column_max cols in
      let obj_range := zip_with safe_range obj_min obj_max in
      let normalized := map (normalize_row obj_min obj_range) (objectives self) in
      let scores := map (fun row => np_dot row weights) normalized in
      let best_idx := np_argmin scores in
      match solutions self !! best_idx, objectives self !! best_idx with
      | Some s, Some o => Some (s, o)
      | _, _ => None
      end
  end.

Definition get_all (self : ParetoArchiveManager) : list (Route * vec * meta) :=
  zip (zip (solutions self) (objectives self)) (metadata self).

End Pareto.

(** ** Exceptions and effects

    [result] is a computation that may raise; [Py] is one that also draws
    from NumPy's global random stream and reads the wall clock. *)
Inductive exn : Type :=
| OceanQueryError
| ZeroDivisionError
| IndexError
| ValueError
| TypeError.

Inductive result (A : Type) : Type :=
| Ok (a : A)
| Raise (e : exn).
Arguments Ok {A} a.
Arguments Raise {A} e.

#[global] Instance result_ret : MRet result := fun A a => Ok a.
#[global] Instance result_bind : MBind result := fun A B f m =>
  match m with Ok a => f a | Raise e => Raise e end.

(** Python's [a / b] on two Python floats. *)
Definition py_truediv (a b : float64) : result float64 :=
  if (b ==? F64.zero)%F then Raise ZeroDivisionError else Ok (a / b)%F.

(** [l[i]] with Python's [IndexError]. *)
Definition py_getitem {A} (l : list A) (i : nat) : result A :=
  match l !! i with Some a => Ok a | None => Raise IndexError end.

(** A left-to-right loop that may raise. *)
Fixpoint foldM {A B} (f : A -> B -> result A) (a : A) (l : list B) : result A :=
  match l with
  | [] => Ok a
  | b :: l' => a' ← f a b; foldM f a' l'
  end.

(** What the process reads from outside: the outputs of [np.random]'s global
    generator after seeding, and the successive readings of
    [datetime.now().timestamp()]. *)
Record Runtime : Type := {
  random_stream : nat -> float64;
  wall_clock : nat -> float64;
  np_argsort : argsort_fn
}.

Record world : Type := {
  rng_pos : nat;
  clock_pos : nat
}.

Definition Py (A : Type) : Type := world -> result (A * world).

#[global] Instance Py_ret : MRet Py := fun A a w => Ok (a, w).
#[global] Instance Py_bind : MBind Py := fun A B f m w =>
  match m w with Ok (a, w') => f a w' | Raise e => Raise e end.

Definition lift {A} (r : result A) : Py A :=
  fun w => match r with Ok a => Ok (a, w) | Raise e => Raise e end.

Definition raise {A} (e : exn) : Py A := fun _ => Raise e.

(** [np.random.random()]: the next output of the global stream. *)
Definition np_random (rt : Runtime) : Py float64 :=
  fun w => Ok (random_stream rt (rng_pos w),
               {| rng_pos := S (rng_pos w); clock_pos := clock_pos w |}).

(** [np.random.uniform(low, high)]. *)
Definition np_uniform (rt : Runtime) (low high : float64) : Py float64 :=
  r ← np_random rt; mret (low + (high - low) * r)%F.

(** [datetime.now().timestamp()]. *)
Definition datetime_now (rt : Runtime) : Py float64 :=
  fun w => Ok (wall_clock rt (clock_pos w),
               {| rng_pos := rng_pos w; clock_pos := S (clock_pos w) |}).

Fixpoint mapM_Py {A B} (f : A -> Py B) (l : list A) : Py (list B) :=
  match l with
  | [] => mret []
  | a :: l' => b ← f a; bs ← mapM_Py f l'; mret (b :: bs)
  end.

Fixpoint foldM_Py {A B} (f : A -> B -> Py A) (a : A) (l : list B) : Py A :=
  match l with
  | [] => mret a
  | b :: l' => a' ← f a b; foldM_Py f a' l'
  end.

(** [np.random.uniform(low, high, n)] and the draws of an [(n, 2)] array, row
    by row. *)
Definition np_uniform_vec (rt : Runtime) (low high : float64) (n : nat) : Py vec :=
  mapM_Py (fun _ => np_uniform rt low high) (seq 0 n).

Definition np_uniform_rows (rt : Runtime) (low high : float64) (n : nat)
    : Py (list waypoint) :=
  mapM_Py (fun _ => a ← np_uniform rt low high;
                    b ← np_uniform rt low high; mret (a, b)) (seq 0 n).

(** ** The ocean environment, as the engine consumes it (src/app/ocean/grid.py)

    A query that raises is [None]. *)
Record OceanGrid : Type := {
  is_land : float64 -> float64 -> option bool;
  get_depth : float64 -> float64 -> option (option float64);
  get_wave_height : float64 -> float64 -> float64 -> option float64;
  get_current_vector : float64 -> float64 -> float64 -> option (float64 * float64);
  get_resistance : float64 -> float64 -> float64 -> option float64;
  get_storm_risk : float64 -> float64 -> float64 -> option float64;
  get_piracy_risk : float64 -> float64 -> option float64
}.

Definition query {A} (o : option A) : result A :=
  match o with Some a => Ok a | None => Raise OceanQueryError end.

(** ** NumPy's elementary functions, which the geodesy formulas call. *)
Record NumpyMath : Type := {
  np_pi : float64;
  np_sin : float64 -> float64;
  np_cos : float64 -> float64;
  np_sqrt : float64 -> float64;
  np_arctan2 : float64 -> float64 -> float64
}.

Definition np_radians (np : NumpyMath) (x : float64) : float64 :=
  (x * (np_pi np / f64 180 1))%F.
Definition np_degrees (np : NumpyMath) (x : float64) : float64 :=
  (x * (f64 180 1 / np_pi np))%F.

(** ** src/app/models/ship.py *)
Module Ship.

Record ShipProfile : Type := {
  service_speed : float64;
  min_speed : float64;
  max_speed : float64;
  sfc_design : float64;
  power_coef_a : float64;
  power_coef_b : float64;
  power_coef_c : float64;
  power_coef_d : float64
}.

Definition calculate_power (self : ShipProfile) (speed : float64) : float64 :=
  (power_coef_a self
   + power_coef_b self * speed
   + power_coef_c self * (speed * speed)
   + power_coef_d self * (speed * speed * speed))%F.

Definition calculate_fuel_consumption (self : ShipProfile)
    (speed hours : float64) : float64 :=
  let power := calculate_power self speed in
  let fuel_rate := (power * sfc_design self / f64 1000000 1)%F in
  (fuel_rate * hours)%F.

End Ship.

(** ** src/app/engine/objectives.py *)
Module Objectives.

Record ObjectiveValues : Type := {
  fuel : float64;
  time : float64;
  risk : float64;
  emissions : float64;
  comfort : float64
}.

Definition to_array (self : ObjectiveValues) : vec :=
  [fuel self; time self; risk self; emissions self; (F64.one - comfort self)%F].

Definition CO2_FACTOR : float64 := f64 3114 1000.

Record ObjectiveFunction : Type := {
  ship : Ship.ShipProfile;
  ocean : OceanGrid;
  departure_time : float64
}.

Section Geodesy.
Variable np : NumpyMath.

Definition _haversine_nm (lat1 lon1 lat2 lon2 : float64) : float64 :=
  let R := f64 3440065 1000 in
  let lat1_rad := np_radians np lat1 in
  let lat2_rad := np_radians np lat2 in
  let dlat := np_radians np (lat2 - lat1)%F in
  let dlon := np_radians np (lon2 - lon1)%F in
  let sq x := (x * x)%F in
  let a := (sq (np_sin np (dlat / f64 2 1))
            + np_cos np lat1_rad * np_cos np lat2_rad
              * sq (np_sin np (dlon / f64 2 1)))%F in
  let c := (f64 2 1 * np_arctan2 np (np_sqrt np a) (np_sqrt np (F64.one - a)))%F in
  (R * c)%F.

Definition _calculate_heading (lat1 lon1 lat2 lon2 : float64) : float64 :=
  let lat1_rad := np_radians np lat1 in
  let lat2_rad := np_radians np lat2 in
  let dlon := np_radians np (lon2 - lon1)%F in
  let x := (np_sin np dlon * np_cos np lat2_rad)%F in
  let y := (np_cos np lat1_rad * np_sin np lat2_rad
            - np_sin np lat1_rad * np_cos np lat2_rad * np_cos np dlon)%F in
  let heading := np_degrees np (np_arctan2 np x y) in
  F64.fmod (heading + f64 360 1)%F 360.

Definition _current_speed_effect (current_u current_v heading : float64)
    : float64 :=
  let current_u_kt := (current_u * f64 1944 1000)%F in
  let current_v_kt := (current_v * f64 1944 1000)%F in
  let heading_rad := np_radians np heading in
  let ship_dir_east := np_sin np heading_rad in
  let ship_dir_north := np_cos np heading_rad in
  (current_u_kt * ship_dir_east + current_v_kt * ship_dir_north)%F.
End Geodesy.

(** The running totals of the loop over the legs. *)
Record totals : Type := {
  total_fuel : float64;
  total_time : float64;
  total_risk : float64;
  total_wave_exposure : float64;
  current_time : float64
}.

(** [distance_nm / effective_speed if effective_speed > 0 else float("inf")];
    the division is Python's, which raises on a zero divisor. *)
Definition leg_time_of (distance_nm effective_speed : float64) : result float64 :=
  if (effective_speed >? F64.zero)%F
  then py_truediv distance_nm effective_speed
  else Ok F64.inf.

(** The body of the loop over the legs, for leg [i]. *)
Definition evaluate_leg (np : NumpyMath) (self : ObjectiveFunction)
    (route : Route) (speeds : vec) (acc : totals) (i : nat) : result totals :=
  '(lat1, lon1) ← py_getitem route i;
  '(lat2, lon2) ← py_getitem route (i + 1);
  speed ← py_getitem speeds i;
  let distance_nm := _haversine_nm np lat1 lon1 lat2 lon2 in
  let mid_lat := ((lat1 + lat2) / f64 2 1)%F in
  let mid_lon := ((lon1 + lon2) / f64 2 1)%F in
  resistance ← query (get_resistance (ocean self) mid_lat mid_lon (current_time acc));
  '(current_u, current_v) ←
    query (get_current_vector (ocean self) mid_lat mid_lon (current_time acc));
  storm_risk ← query (get_storm_risk (ocean self) mid_lat mid_lon (current_time acc));
  piracy_risk ← query (get_piracy_risk (ocean self) mid_lat mid_lon);
  wave_height ← query (get_wave_height (ocean self) mid_lat mid_lon (current_time acc));
  let heading := _calculate_heading np lat1 lon1 lat2 lon2 in
  let current_effect := _current_speed_effect np current_u current_v heading in
  let effective_speed :=
    F64.py_max (speed + current_effect)%F (Ship.min_speed (ship self)) in
  leg_time ← leg_time_of distance_nm effective_speed;
  let base_fuel := Ship.calculate_fuel_consumption (ship self) speed leg_time in
  let adjusted_fuel := (base_fuel * resistance)%F in
  let leg_risk := (F64.py_max storm_risk piracy_risk * (leg_time / f64 24 1))%F in
  mret {| total_fuel := (total_fuel acc + adjusted_fuel)%F;
          total_time := (total_time acc + leg_time)%F;
          total_risk := (total_risk acc + leg_risk)%F;
          total_wave_exposure := (total_wave_exposure acc + wave_height * leg_time)%F;
          current_time := (current_time acc + leg_time * f64 3600 1)%F |}.

Definition degenerate : ObjectiveValues :=
  {| fuel := F64.inf; time := F64.inf; risk := F64.one;
     emissions := F64.inf; comfort := F64.zero |}.

Definition evaluate (np : NumpyMath) (self : ObjectiveFunction)
    (route : Route) (speeds : option vec) : result ObjectiveValues :=
  let n_waypoints := length route in
  if (n_waypoints <? 2)%nat then Ok degenerate
  else
    let speeds :=
      match speeds with
      | Some s => s
      | None => replicate (n_waypoints - 1) (Ship.service_speed (ship self))
      end in
    let start := {| total_fuel := F64.zero; total_time := F64.zero;
                    total_risk := F64.zero; total_wave_exposure := F64.zero;
                    current_time := departure_time self |} in
    acc ← foldM (evaluate_leg np self route speeds) start (seq 0 (n_waypoints - 1));
    let risk_score := F64.py_min F64.one (total_risk acc) in
    avg_wave ← py_truediv (total_wave_exposure acc)
                 (F64.py_max (total_time acc) F64.one);
    let comfort_score :=
      F64.py_max F64.zero (F64.one - avg_wave / f64 10 1)%F in
    let emissions := (total_fuel acc * CO2_FACTOR)%F in
    mret {| fuel := total_fuel acc; time := total_time acc; risk := risk_score;
            emissions := emissions; comfort := comfort_score |}.

End Objectives.

(** ** src/app/engine/constraints.py *)
Module Constraints.

(** The [description] text of a violation takes no part in any computation and
    is left out. *)
Record ConstraintViolation : Type := {
  constraint_type : string;
  waypoint_index : option nat;
  severity : float64
}.

Definition LAND_PENALTY : float64 := f64 1000000 1.
Definition STORM_PENALTY : float64 := f64 10000 1.
Definition PIRACY_PENALTY : float64 := f64 1000 1.
Definition DEPTH_PENALTY : float64 := f64 100000 1.
Definition SPEED_PENALTY : float64 := f64 100 1.
Definition FUEL_PENALTY : float64 := f64 10000 1.

Record ConstraintHandler : Type := {
  ocean : OceanGrid;
  min_depth : float64;
  min_speed : float64;
  max_speed : float64;
  max_fuel : option float64
}.

(** The violations of waypoint [i], in the order the source appends them. *)
Definition check_waypoint (self : ConstraintHandler) (time : float64)
    (i : nat) (wp : waypoint) : result (list ConstraintViolation) :=
  let '(lat, lon) := wp in
  on_land ← query (is_land (ocean self) lat lon);
  let v_land :=
    if on_land : bool
    then [{| constraint_type := "land"; waypoint_index := Some i;
             severity := F64.one |}]
    else [] in
  depth ← query (get_depth (ocean self) lat lon);
  v_depth ←
    match depth with
    | Some d =>
        if (d <? min_depth self)%F
        then q ← py_truediv (min_depth self - d)%F (min_depth self);
             mret [{| constraint_type := "depth"; waypoint_index := Some i;
                      severity := F64.py_min F64.one q |}]
        else mret []
    | None => mret []
    end;
  storm_risk ← query (get_storm_risk (ocean self) lat lon time);
  let v_storm :=
    if (storm_risk >? f64 8 10)%F
    then [{| constraint_type := "storm"; waypoint_index := Some i;
             severity := storm_risk |}]
    else [] in
  piracy_risk ← query (get_piracy_risk (ocean self) lat lon);
  let v_piracy :=
    if (piracy_risk >? f64 7 10)%F
    then [{| constraint_type := "piracy"; waypoint_index := Some i;
             severity := piracy_risk |}]
    else [] in
  mret (v_land ++ v_depth ++ v_storm ++ v_piracy).

Fixpoint check_waypoints (self : ConstraintHandler) (time : float64)
    (i : nat) (route : Route) : result (list ConstraintViolation) :=
  match route with
  | [] => Ok []
  | wp :: rest =>
      vs ← check_waypoint self time i wp;
      vs' ← check_waypoints self time (S i) rest;
      mret (vs ++ vs')
  end.

Definition check_speed (self : ConstraintHandler) (i : nat) (speed : float64)
    : list ConstraintViolation :=
  if (speed <? min_speed self)%F
  then [{| constraint_type := "speed"; waypoint_index := Some i;
           severity := F64.py_min F64.one
                         ((min_speed self - speed) / min_speed self)%F |}]
  else if (speed >? max_speed self)%F
  then [{| constraint_type := "speed"; waypoint_index := Some i;
           severity := F64.py_min F64.one
                         ((speed - max_speed self) / max_speed self)%F |}]
  else [].

Definition check_fuel (self : ConstraintHandler) (fuel_consumption : option float64)
    : result (list ConstraintViolation) :=
  match max_fuel self, fuel_consumption with
  | Some mf, Some fc =>
      if (fc >? mf)%F
      then q ← py_truediv (fc - mf)%F mf;
           mret [{| constraint_type := "fuel"; waypoint_index := None;
                    severity := F64.py_min F64.one q |}]
      else mret []
  | _, _ => mret []
  end.

(** [time or datetime.now().timestamp()]: the clock is read only when no time
    (or the falsy time [0.0]) is given. *)
Definition time_or_now (rt : Runtime) (time : option float64) : Py float64 :=
  match time with
  | Some t => if (t ==? F64.zero)%F then datetime_now rt else mret t
  | None => datetime_now rt
  end.

Definition check_route (rt : Runtime) (self : ConstraintHandler) (route : Route)
    (speeds : option vec) (time : option float64)
    (fuel_consumption : option float64) : Py (list ConstraintViolation) :=
  time ← time_or_now rt time;
  vs_wp ← lift (check_waypoints self time 0 route);
  let vs_speed :=
    match speeds with
    | Some s => concat (imap (check_speed self) s)
    | None => []
    end in
  vs_fuel ← lift (check_fuel self fuel_consumption);
  mret (vs_wp ++ vs_speed ++ vs_fuel).

Definition penalty_of (v : ConstraintViolation) : float64 :=
  if String.eqb (constraint_type v) "land" then (LAND_PENALTY * severity v)%F
  else if String.eqb (constraint_type v) "depth" then (DEPTH_PENALTY * severity v)%F
  else if String.eqb (constraint_type v) "storm" then (STORM_PENALTY * severity v)%F
  else if String.eqb (constraint_type v) "piracy" then (PIRACY_PENALTY * severity v)%F
  else if String.eqb (constraint_type v) "speed" then (SPEED_PENALTY * severity v)%F
  else if String.eqb (constraint_type v) "fuel" then (FUEL_PENALTY * severity v)%F
  else F64.zero.

(** [total_penalty += ...] over the violations; a violation of no known kind
    adds nothing. *)
Definition calculate_penalty (violations : list ConstraintViolation) : float64 :=
  foldl (fun total v =>
           if existsb (String.eqb (constraint_type v))
                ["land"; "depth"; "storm"; "piracy"; "speed"; "fuel"]
           then (total + penalty_of v)%F else total)
        F64.zero violations.

Definition is_land_violation (v : ConstraintViolation) : bool :=
  String.eqb (constraint_type v) "land".

Definition is_feasible (rt : Runtime) (self : ConstraintHandler) (route : Route)
    (speeds : option vec) (time fuel_consumption : option float64) : Py bool :=
  violations ← check_route rt self route speeds time fuel_consumption;
  mret (negb (existsb is_land_violation violations)).

(** The displacements a land waypoint is tried at, in the order of the two
    nested loops: [delta] outermost, then [direction]. *)
Definition repair_deltas : list float64 := [f64 1 10; f64 2 10; f64 5 10; f64 1 1].
Definition repair_directions : list (Z * Z) :=
  [(1, 0); (-1, 0); (0, 1); (0, -1); (1, 1); (-1, -1)]%Z.

Definition displace (wp : waypoint) (delta : float64) (direction : Z * Z)
    : waypoint :=
  (wp.1 + delta * Fin (inject_Z direction.1),
   wp.2 + delta * Fin (inject_Z direction.2))%F.

Definition candidates (directions : list (Z * Z)) (wp : waypoint) : list waypoint :=
  delta ← repair_deltas; direction ← directions; [displace wp delta direction].

(** The first candidate that is not land, if any; a query that raises ends
    the search with the exception. *)
Fixpoint first_off_land (ocn : OceanGrid) (cands : list waypoint)
    : result (option waypoint) :=
  match cands with
  | [] => Ok None
  | c :: rest =>
      on_land ← query (is_land ocn c.1 c.2);
      if on_land : bool then first_off_land ocn rest else Ok (Some c)
  end.

(** The body of [for v in land_violations]. *)
Definition repair_violation (directions : list (Z * Z)) (self : ConstraintHandler)
    (repaired : Route) (v : ConstraintViolation) : result Route :=
  match waypoint_index v with
  | None => Ok repaired
  | Some idx =>
      if ((idx =? 0) || (idx =? length repaired - 1))%nat then Ok repaired
      else
        wp ← py_getitem repaired idx;
        found ← first_off_land (ocean self) (candidates directions wp);
        match found with
        | Some c => Ok (<[idx := c]> repaired)
        | None => Ok repaired
        end
  end.

(** One pass of the loop of [repair_route]: [None] when the route has no land
    violation left (the [break]), else the route after the pass. *)
Definition repair_pass (rt : Runtime) (directions : list (Z * Z))
    (self : ConstraintHandler) (repaired : Route) : Py (option Route) :=
  violations ← check_route rt self repaired None None None;
  let land_violations := List.filter is_land_violation violations in
  match land_violations with
  | [] => mret None
  | _ =>
      repaired' ← lift (foldM (repair_violation directions self)
                          repaired land_violations);
      mret (Some repaired')
  end.

Fixpoint repair_passes (rt : Runtime) (directions : list (Z * Z))
    (self : ConstraintHandler) (iterations : nat) (repaired : Route) : Py Route :=
  match iterations with
  | O => mret repaired
  | S n =>
      pass ← repair_pass rt directions self repaired;
      match pass with
      | None => mret repaired
      | Some repaired' => repair_passes rt directions self n repaired'
      end
  end.

(** [repair_route(route, max_iterations=10)]. *)
Definition repair_route (rt : Runtime) (self : ConstraintHandler) (route : Route)
    (max_iterations : option nat) : Py Route :=
  repair_passes rt repair_directions self (default 10%nat max_iterations) route.

End Constraints.

(** ** src/app/engine/hacopso.py *)
Module Hacopso.

Inductive ChaosType : Type := LOGISTIC | TENT | SINUSOIDAL.

Record HACOPSOConfig : Type := {
  swarm_size : nat;
  max_iterations : nat;
  archive_size : nat;
  w_max : float64;
  w_min : float64;
  c1 : float64;
  c2 : float64;
  v_max_lat : float64;
  v_max_lon : float64;
  opposition_rate : float64;
  chaos_type : ChaosType;
  n_waypoints : nat;
  stagnation_limit : nat
}.

(** The defaults of the dataclass. *)
Definition default_config : HACOPSOConfig :=
  {| swarm_size := 50; max_iterations := 200; archive_size := 100;
     w_max := f64 9 10; w_min := f64 4 10; c1 := f64 2 1; c2 := f64 2 1;
     v_max_lat := f64 2 1; v_max_lon := f64 2 1; opposition_rate := f64 3 10;
     chaos_type := LOGISTIC; n_waypoints := 10; stagnation_limit := 20 |}.

Record Particle : Type := {
  position : Route;
  velocity : Route;
  speeds : vec;
  personal_best : Route;
  personal_best_obj : vec;
  fitness : float64
}.

(** What the engine is constructed with and never assigns afterwards. *)
Record Setup : Type := {
  config : HACOPSOConfig;
  objective : Objectives.ObjectiveFunction;
  constraints : Constraints.ConstraintHandler;
  origin : waypoint;
  destination : waypoint;
  weights : vec
}.

(** The attributes the methods assign. *)
Record HACOPSOEngine : Type := {
  setup : Setup;
  archive : Pareto.ParetoArchiveManager;
  particles : list Particle;
  global_best : option Route;
  global_best_obj : option vec;
  chaos_value : float64;
  iteration : nat;
  stagnation_count : nat;
  convergence_history : list float64
}.

Definition set_archive (self : HACOPSOEngine) (a : Pareto.ParetoArchiveManager)
    : HACOPSOEngine :=
  {| setup := setup self; archive := a; particles := particles self;
     global_best := global_best self; global_best_obj := global_best_obj self;
     chaos_value := chaos_value self; iteration := iteration self;
     stagnation_count := stagnation_count self;
     convergence_history := convergence_history self |}.

Definition set_particles (self : HACOPSOEngine) (ps : list Particle)
    : HACOPSOEngine :=
  {| setup := setup self; archive := archive self; particles := ps;
     global_best := global_best self; global_best_obj := global_best_obj self;
     chaos_value := chaos_value self; iteration := iteration self;
     stagnation_count := stagnation_count self;
     convergence_history := convergence_history self |}.

Definition set_chaos_value (self : HACOPSOEngine) (x : float64) : HACOPSOEngine :=
  {| setup := setup self; archive := archive self; particles := particles self;
     global_best := global_best self; global_best_obj := global_best_obj self;
     chaos_value := x; iteration := iteration self;
     stagnation_count := stagnation_count self;
     convergence_history := convergence_history self |}.

(** The search box: [((lat_lo, lat_hi), (lon_lo, lon_hi))]. *)
Definition bounds_t : Type := (float64 * float64) * (float64 * float64).

(** Element-wise arithmetic on [(N, 2)] arrays.  A one-row operand is
    broadcast; any other difference in row count raises [ValueError]. *)
Definition row_op (f : float64 -> float64 -> float64) (a b : waypoint) : waypoint :=
  (f a.1 b.1, f a.2 b.2).

Definition rows_op (f : float64 -> float64 -> float64) (a b : Route)
    : result Route :=
  match a, b with
  | [r], _ => Ok (map (fun y => row_op f r y) b)
  | _, [r] => Ok (map (fun x => row_op f x r) a)
  | _, _ => if (length a =? length b)%nat then Ok (zip_with (row_op f) a b)
            else Raise ValueError
  end.

Definition rows_scale (k : float64) (a : Route) : Route :=
  map (fun x => (k * x.1, k * x.2)%F) a.

Definition clip_row (lo hi : float64) (x : waypoint) : waypoint :=
  (F64.clip x.1 lo hi, F64.clip x.2 lo hi).

Definition clip_to_bounds (bounds : bounds_t) (x : waypoint) : waypoint :=
  (F64.clip x.1 bounds.1.1 bounds.1.2, F64.clip x.2 bounds.2.1 bounds.2.2).

(** Whether [i] is one of the rows [1 .. n-2] that [a[1:-1]] selects. *)
Definition interior (n i : nat) : bool := ((1 <=? i) && (i + 1 <? n))%nat.

Definition default_weights : vec := replicate 5 (f64 2 10).

Section Engine.
Variable rt : Runtime.
Variable np : NumpyMath.

Definition __init__ (config : HACOPSOConfig)
    (objective_func : Objectives.ObjectiveFunction)
    (constraint_handler : Constraints.ConstraintHandler)
    (origin destination : waypoint) (weights : option vec) : Py HACOPSOEngine :=
  chaos ← np_random rt;
  mret {| setup := {| config := config; objective := objective_func;
                      constraints := constraint_handler;
                      origin := origin; destination := destination;
                      weights := default default_weights weights |};
          archive := Pareto.__init__ (archive_size config);
          particles := []; global_best := None; global_best_obj := None;
          chaos_value := chaos; iteration := 0; stagnation_count := 0;
          convergence_history := [] |}.

Definition _get_bounds (s : Setup) : bounds_t :=
  let o := origin s in
  let d := destination s in
  (((F64.py_min o.1 d.1 - f64 10 1)%F, (F64.py_max o.1 d.1 + f64 10 1)%F),
   ((F64.py_min o.2 d.2 - f64 10 1)%F, (F64.py_max o.2 d.2 + f64 10 1)%F)).

(** The body of the loop of [_generate_random_route], for interior row [i]. *)
Definition random_waypoint (s : Setup) (bounds : bounds_t) (i : nat)
    : Py waypoint :=
  let n_wp := n_waypoints (config s) in
  let t := (F64.of_nat i / F64.of_nat (n_wp + 1))%F in
  let o := origin s in
  let d := destination s in
  let base := ((o.1 * (F64.one - t) + d.1 * t)%F,
               (o.2 * (F64.one - t) + d.2 * t)%F) in
  dlat ← np_uniform rt (f64 (-5) 1) (f64 5 1);
  dlon ← np_uniform rt (f64 (-5) 1) (f64 5 1);
  mret (clip_to_bounds bounds (row_op F64.add base (dlat, dlon))).

Definition _generate_random_route (s : Setup) (bounds : bounds_t) : Py Route :=
  inner ← mapM_Py (random_waypoint s bounds) (seq 1 (n_waypoints (config s)));
  mret (origin s :: inner ++ [destination s]).

Definition opposite (bounds : bounds_t) (x : waypoint) : waypoint :=
  clip_to_bounds bounds
    ((bounds.1.1 + bounds.1.2 - x.1)%F, (bounds.2.1 + bounds.2.2 - x.2)%F).

Definition _opposition_route (route : Route) (bounds : bounds_t) : Route :=
  imap (fun i x => if interior (length route) i then opposite bounds x else x)
    route.

(** [np.dot(self.weights, obj) + penalty]. *)
Definition weighted_sum (s : Setup) (obj_array : vec) : float64 :=
  np_dot (weights s) obj_array.

(** Objectives and fitness of a route under a speed profile: [evaluate],
    [check_route], [calculate_penalty], in the order of the source. *)
Definition assess (s : Setup) (route : Route) (speeds : vec)
    : Py (vec * list Constraints.ConstraintViolation * float64) :=
  obj_values ← lift (Objectives.evaluate np (objective s) route (Some speeds));
  let obj_array := Objectives.to_array obj_values in
  violations ←
    Constraints.check_route rt (constraints s) route (Some speeds) None None;
  let penalty := Constraints.calculate_penalty violations in
  mret (obj_array, violations, (weighted_sum s obj_array + penalty)%F).

Definition _create_particle (s : Setup) (route : Route) : Py Particle :=
  let v := v_max_lat (config s) in
  velocity ← np_uniform_rows rt (- v)%F v (length route);
  match route with
  | [] => raise ValueError
  | _ :: _ =>
      let shp := Objectives.ship (objective s) in
      noise ← np_uniform_vec rt (f64 (-2) 1) (f64 2 1) (length route - 1);
      let speeds :=
        map (fun d => F64.clip (Ship.service_speed shp + d)%F
                        (Ship.min_speed shp) (Ship.max_speed shp)) noise in
      '(obj_array, _, fit) ← assess s route speeds;
      mret {| position := route; velocity := velocity; speeds := speeds;
              personal_best := route; personal_best_obj := obj_array;
              fitness := fit |}
  end.

(** [_chaotic_inertia_weight]: the new chaos value, and the inertia. *)
Definition next_chaos (c : HACOPSOConfig) (x : float64) : float64 :=
  let x' :=
    match chaos_type c with
    | LOGISTIC => (f64 4 1 * x * (F64.one - x))%F
    | TENT => if (x <? f64 5 10)%F then (f64 2 1 * x)%F
              else (f64 2 1 * (F64.one - x))%F
    | SINUSOIDAL => np_sin np (np_pi np * x)%F
    end in
  F64.clip x' (f64 1 100) (f64 99 100).

Definition _chaotic_inertia_weight (self : HACOPSOEngine)
    : result (float64 * HACOPSOEngine) :=
  let c := config (setup self) in
  let chaos := next_chaos c (chaos_value self) in
  progress ← py_truediv (F64.of_nat (iteration self))
               (F64.of_nat (max_iterations c));
  let base_w := (w_max c - (w_max c - w_min c) * progress)%F in
  mret ((base_w * (F64.one + f64 5 10 * (chaos - f64 5 10)))%F,
        set_chaos_value self chaos).

(** [min(particles, key=...)]: the first particle that no later one is
    strictly below. *)
Definition min_by_fitness (first : Particle) (rest : list Particle) : Particle :=
  foldl (fun best p => if (fitness p <? fitness best)%F then p else best)
    first rest.

Definition _update_global_best (self : HACOPSOEngine) : result HACOPSOEngine :=
  match particles self with
  | [] => Raise ValueError
  | first :: rest =>
      let best := min_by_fitness first rest in
      improved ←
        match global_best self, global_best_obj self with
        | None, _ => Ok true
        | Some _, Some gobj =>
            Ok (fitness best <? weighted_sum (setup self) gobj)%F
        | Some _, None => Raise TypeError
        end;
      mret {| setup := setup self; archive := archive self;
              particles := particles self;
              global_best :=
                if improved : bool then Some (personal_best best)
                else global_best self;
              global_best_obj :=
                if improved then Some (personal_best_obj best)
                else global_best_obj self;
              chaos_value := chaos_value self; iteration := iteration self;
              stagnation_count :=
                if improved then 0%nat else S (stagnation_count self);
              convergence_history := convergence_history self |}
  end.

(** [initialize_swarm]: the loop that fills the [remaining] free slots, a
    random route and then, if a slot is left, its opposition image. *)
Fixpoint fill_swarm (s : Setup) (bounds : bounds_t) (remaining : nat)
    : Py (list Particle) :=
  match remaining with
  | O => mret []
  | S O =>
      route ← _generate_random_route s bounds;
      p ← _create_particle s route;
      mret [p]
  | S (S k) =>
      route ← _generate_random_route s bounds;
      p ← _create_particle s route;
      q ← _create_particle s (_opposition_route route bounds);
      rest ← fill_swarm s bounds k;
      mret (p :: q :: rest)
  end.

Definition initialize_swarm (self : HACOPSOEngine)
    (warm_start : option (list Route)) : Py HACOPSOEngine :=
  let s := setup self in
  let bounds := _get_bounds s in
  seeded ← mapM_Py (_create_particle s)
             (take (swarm_size (config s) / 4)%nat (default [] warm_start));
  fresh ← fill_swarm s bounds (swarm_size (config s) - length seeded);
  lift (_update_global_best (set_particles self (seeded ++ fresh))).

(** [np.random.random(shape)] for an [(n, 2)] shape, row by row. *)
Definition np_random_rows (n : nat) : Py Route :=
  mapM_Py (fun _ => a ← np_random rt; b ← np_random rt; mret (a, b)) (seq 0 n).

(** The leader of a particle: the archive's compromise if the archive is
    not empty, else the global best, else the particle's personal best. *)
Definition leader_of (s : Setup) (arch : Pareto.ParetoArchiveManager)
    (gbest : option Route) (p : Particle) : result Route :=
  leader ←
    (if (0 <? Pareto.size arch)%nat
     then match Pareto.get_compromise arch (weights s) with
          | Some (sol, _) => Ok (Some sol)
          | None => Raise TypeError
          end
     else Ok gbest);
  mret (default (personal_best p) leader).

(** [p.position[0], p.position[-1] = self.origin, self.destination]. *)
Definition pin_endpoints (s : Setup) (pos : Route) : result Route :=
  match pos with
  | [] => Raise IndexError
  | _ :: _ => Ok (<[length pos - 1 := destination s]> (<[0 := origin s]> pos))
  end.

(** [pos[1:-1] += vel[1:-1]]: the two slices have one length, or the slice
    of [vel] is a single row, which is broadcast; else [ValueError]. *)
Definition add_interior (pos vel : Route) : Py Route :=
  let n := length pos in
  if (n - 2 =? length vel - 2)%nat
  then mret (imap (fun i x => if interior n i
                              then row_op F64.add x (vel !!! i) else x) pos)
  else if (length vel - 2 =? 1)%nat
  then mret (imap (fun i x => if interior n i
                              then row_op F64.add x (vel !!! 1%nat) else x) pos)
  else raise ValueError.

(** The body of the loop over the particles in [iterate]. *)
Definition update_particle (s : Setup) (bounds : bounds_t) (inertia : float64)
    (gbest : option Route) (arch : Pareto.ParetoArchiveManager) (p : Particle)
    : Py (Particle * Pareto.ParetoArchiveManager) :=
  let c := config s in
  let n := length (position p) in
  r1 ← np_random_rows n;
  r2 ← np_random_rows n;
  leader ← lift (leader_of s arch gbest p);
  to_pbest ← lift (rows_op F64.sub (personal_best p) (position p));
  cognitive ← lift (rows_op F64.mul (rows_scale (c1 c) r1) to_pbest);
  to_leader ← lift (rows_op F64.sub leader (position p));
  social ← lift (rows_op F64.mul (rows_scale (c2 c) r2) to_leader);
  v1 ← lift (rows_op F64.add (rows_scale inertia (velocity p)) cognitive);
  v2 ← lift (rows_op F64.add v1 social);
  let vel := map (clip_row (- v_max_lat c)%F (v_max_lat c)) v2 in
  moved ← add_interior (position p) vel;
  pos ← lift (pin_endpoints s (map (clip_to_bounds bounds) moved));
  '(obj_arr, violations, fit) ← assess s pos (speeds p);
  let improved := (fit <? weighted_sum s (personal_best_obj p))%F in
  let p' := {| position := pos; velocity := vel; speeds := speeds p;
               personal_best := if improved then pos else personal_best p;
               personal_best_obj :=
                 if improved then obj_arr else personal_best_obj p;
               fitness := fit |} in
  let arch' :=
    if existsb Constraints.is_land_violation violations then arch
    else (Pareto.add (np_argsort rt) arch pos obj_arr
            (Some [("speeds"%string, speeds p)])).2 in
  mret (p', arch').

Fixpoint update_particles (s : Setup) (bounds : bounds_t) (inertia : float64)
    (gbest : option Route) (arch : Pareto.ParetoArchiveManager)
    (ps : list Particle) : Py (list Particle * Pareto.ParetoArchiveManager) :=
  match ps with
  | [] => mret ([], arch)
  | p :: rest =>
      '(p', arch') ← update_particle s bounds inertia gbest arch p;
      '(rest', arch'') ← update_particles s bounds inertia gbest arch' rest;
      mret (p' :: rest', arch'')
  end.

(** The body of the opposition-based learning loop. *)
Definition oppose_particle (s : Setup) (bounds : bounds_t) (p : Particle)
    : Py Particle :=
  let opp := _opposition_route (position p) bounds in
  '(_, _, opp_fit) ← assess s opp (speeds p);
  mret (if (opp_fit <? fitness p)%F
        then {| position := opp; velocity := velocity p; speeds := speeds p;
                personal_best := personal_best p;
                personal_best_obj := personal_best_obj p;
                fitness := opp_fit |}
        else p).

(** [min(p.fitness for p in self.particles)]. *)
Definition min_fitness (ps : list Particle) : result float64 :=
  match ps with
  | [] => Raise ValueError
  | first :: rest =>
      Ok (foldl (fun best x => if (x <? best)%F then x else best)
            (fitness first) (map fitness rest))
  end.

Record stats : Type := {
  stats_iteration : nat;
  best_fitness : float64;
  stats_archive_size : nat
}.

Definition iterate (self : HACOPSOEngine) : Py (stats * HACOPSOEngine) :=
  let s := setup self in
  let bounds := _get_bounds s in
  '(inertia, self) ← lift (_chaotic_inertia_weight self);
  '(ps, arch) ← update_particles s bounds inertia (global_best self)
                  (archive self) (particles self);
  self ← lift (_update_global_best (set_archive (set_particles self ps) arch));
  opposing ←
    (if (stagnation_limit (config s) / 2 <=? stagnation_count self)%nat
     then r ← np_random rt; mret (r <? opposition_rate (config s))%F
     else mret false);
  ps ← (if opposing : bool
        then mapM_Py (oppose_particle s bounds) (particles self)
        else mret (particles self));
  best_fit ← lift (min_fitness ps);
  let self :=
    {| setup := s; archive := archive self; particles := ps;
       global_best := global_best self; global_best_obj := global_best_obj self;
       chaos_value := chaos_value self; iteration := S (iteration self);
       stagnation_count := stagnation_count self;
       convergence_history := convergence_history self ++ [best_fit] |} in
  mret ({| stats_iteration := iteration self; best_fitness := best_fit;
           stats_archive_size := Pareto.size (archive self) |}, self).

(** The loop of [optimize]: at most [n] more iterations, stopping once the
    stagnation limit is reached. *)
Fixpoint optimize_loop (n : nat) (self : HACOPSOEngine) : Py HACOPSOEngine :=
  match n with
  | O => mret self
  | S k =>
      '(_, self) ← iterate self;
      if (stagnation_limit (config (setup self)) <=? stagnation_count self)%nat
      then mret self
      else optimize_loop k self
  end.

(** One entry of ["solutions"]: the route, the five objectives in the
    user-facing orientation, and the metadata. *)
Record solution : Type := {
  sol_route : Route;
  sol_objectives : Objectives.ObjectiveValues;
  sol_meta : Pareto.meta
}.

Definition solution_of (e : Route * vec * Pareto.meta) : solution :=
  let '(r, o, m) := e in
  {| sol_route := r;
     sol_objectives :=
       {| Objectives.fuel := o !!! 0%nat; Objectives.time := o !!! 1%nat;
          Objectives.risk := o !!! 2%nat; Objectives.emissions := o !!! 3%nat;
          Objectives.comfort := (F64.one - o !!! 4%nat)%F |};
     sol_meta := m |}.

(** The dictionary [optimize] returns: exactly these four keys. *)
Record optimize_result : Type := {
  iterations : nat;
  archive_size_out : nat;
  convergence : list float64;
  solutions : list solution
}.

Definition optimize (self : HACOPSOEngine) (warm_start : option (list Route))
    : Py (optimize_result * HACOPSOEngine) :=
  self ← initialize_swarm self warm_start;
  self ← optimize_loop (max_iterations (config (setup self))) self;
  mret ({| iterations := iteration self;
           archive_size_out := Pareto.size (archive self);
           convergence := convergence_history self;
           solutions := map solution_of (Pareto.get_all (archive self)) |}, self).
End Engine.

End Hacopso.

(** ** The notions the properties are stated with *)
Module ArchiveSpec.
Import Pareto.

(** No entry's objective vector dominates an entry's objective vector. *)
Definition antichain (objs : list vec) : Prop :=
  forall a b : vec, a ∈ objs -> b ∈ objs -> dominates a b = false.

(** The three parallel lists of the archive have one length. *)
Definition in_sync (self : ParetoArchiveManager) : Prop :=
  length (solutions self) = length (objectives self)
  /\ length (metadata self) = length (objectives self).

Definition archive_inv (self : ParetoArchiveManager) : Prop :=
  antichain (objectives self)
  /\ (size self <= max_size self)%nat
  /\ in_sync self.

(** The arguments of one call of [add], and a sequence of calls. *)
Definition insertion : Type := Route * vec * option meta.

Definition add_all (argsort : argsort_fn) (self : ParetoArchiveManager)
    (calls : list insertion) : ParetoArchiveManager :=
  foldl (fun a c => (add argsort a c.1.1 c.1.2 c.2).2) self calls.

(** The entries whose crowding distance is infinite, by index. *)
Definition is_pinf (x : float64) : bool :=
  match x with PInf => true | _ => false end.

Definition inf_indices (distances : vec) : list nat :=
  List.filter (fun i => is_pinf (distances !!! i)) (seq 0 (length distances)).

(** Distances that are finite or [+inf]. *)
Definition good (d : vec) : Prop :=
  Forall (fun x => x = PInf \/ F64.is_finite x = true) d.

(** A front of finite values, every row of dimension [m]. *)
Definition finite_front (m : nat) (front : list vec) : Prop :=
  forall row, row ∈ front ->
    length row = m /\ forall x, x ∈ row -> F64.is_finite x = true.

(** The archive of [test_truncation] before its first truncation: bound 3,
    four entries (i, 5 - i, 0, 0, 0). *)
Definition truncation_example : ParetoArchiveManager :=
  let entry (i : Z) : vec :=
    [f64 i 1; f64 (5 - i) 1; f64 0 1; f64 0 1; f64 0 1] in
  {| max_size := 3;
     solutions := map (fun i => [(f64 0 1, f64 0 1); (f64 i 1, f64 i 1)])
                    [0; 1; 2; 3]%Z;
     objectives := map entry [0; 1; 2; 3]%Z;
     metadata := [[]; []; []; []] |}.

End ArchiveSpec.

Module EvalSpec.

(** An ocean none of whose queries raises. *)
Definition ocean_total (o : OceanGrid) : Prop :=
  (forall lat lon, is_Some (is_land o lat lon))
  /\ (forall lat lon, is_Some (get_depth o lat lon))
  /\ (forall lat lon t, is_Some (get_wave_height o lat lon t))
  /\ (forall lat lon t, is_Some (get_current_vector o lat lon t))
  /\ (forall lat lon t, is_Some (get_resistance o lat lon t))
  /\ (forall lat lon t, is_Some (get_storm_risk o lat lon t))
  /\ (forall lat lon, is_Some (get_piracy_risk o lat lon)).

(** A speed profile that matches a route: one speed per leg, or none given. *)
Definition speeds_match (route : Route) (speeds : option vec) : Prop :=
  match speeds with
  | Some s => length s = (length route - 1)%nat
  | None => True
  end.

(** The totals before the first leg, and the speed profile [evaluate] uses. *)
Definition legs_start (self : Objectives.ObjectiveFunction) : Objectives.totals :=
  {| Objectives.total_fuel := F64.zero; Objectives.total_time := F64.zero;
     Objectives.total_risk := F64.zero;
     Objectives.total_wave_exposure := F64.zero;
     Objectives.current_time := Objectives.departure_time self |}.

Definition speeds_used (self : Objectives.ObjectiveFunction) (route : Route)
    (speeds : option vec) : vec :=
  match speeds with
  | Some s => s
  | None => replicate (length route - 1)
              (Ship.service_speed (Objectives.ship self))
  end.

End EvalSpec.

Module RepairSpec.
Import Constraints.

(** The repair the specification describes, in its words: the same search
    over all eight compass directions (the six of the source, then the two
    it leaves out). *)
Definition compass_directions : list (Z * Z) :=
  [(1, 0); (-1, 0); (0, 1); (0, -1); (1, 1); (-1, -1); (1, -1); (-1, 1)]%Z.

Definition spec_repair_route (rt : Runtime) (self : ConstraintHandler)
    (route : Route) (max_iterations : option nat) : Py Route :=
  repair_passes rt compass_directions self (default 10%nat max_iterations) route.

(** The indices, from [i] on, of the waypoints that lie on land. *)
Fixpoint land_positions (ocn : OceanGrid) (i : nat) (route : Route) : list nat :=
  match route with
  | [] => []
  | wp :: rest =>
      match is_land ocn wp.1 wp.2 with
      | Some true => i :: land_positions ocn (S i) rest
      | _ => land_positions ocn (S i) rest
      end
  end.

Definition land_violation_at (i : nat) : ConstraintViolation :=
  {| constraint_type := "land"; waypoint_index := Some i; severity := F64.one |}.

(** Waypoint [x'] is where the search from [x] ends: a candidate that is not
    land, every candidate before it being land. *)
Definition first_free (ocn : OceanGrid) (directions : list (Z * Z))
    (x x' : float64 * float64) : Prop :=
  exists before after,
    candidates directions x = before ++ x' :: after
    /\ is_land ocn x'.1 x'.2 = Some false
    /\ forall c, c ∈ before -> is_land ocn c.1 c.2 = Some true.

(** Route [r] comes from [R] by repairs: same length, and a waypoint that
    moved was an interior waypoint of [R] on land and stands where the
    search from it ends. *)
Definition repaired_from (ocn : OceanGrid) (directions : list (Z * Z))
    (R r : Route) : Prop :=
  length r = length R
  /\ forall i,
       r !! i = R !! i
       \/ ((0 < i < length R - 1)%nat
           /\ exists x c, R !! i = Some x
                          /\ is_land ocn x.1 x.2 = Some true
                          /\ first_free ocn directions x c
                          /\ r !! i = Some c).

End RepairSpec.

Module EngineSpec.
Import Hacopso.

(** A position of at least two waypoints starts at the origin and ends at
    the destination. *)
Definition pinned (s : Setup) (p : Particle) : Prop :=
  (2 <= length (position p))%nat ->
  position p !! 0%nat = Some (origin s)
  /\ position p !! (length (position p) - 1)%nat = Some (destination s).

(** [n] successive calls of [iterate]. *)
Fixpoint iterate_n (rt : Runtime) (np : NumpyMath) (n : nat)
    (self : HACOPSOEngine) : Py HACOPSOEngine :=
  match n with
  | O => mret self
  | S k => '(_, self) ← iterate rt np self; iterate_n rt np k self
  end.

(** The handler never reports a negative total penalty. *)
Definition penalties_nonneg (rt : Runtime)
    (handler : Constraints.ConstraintHandler) : Prop :=
  forall route speeds time fuel w vs w',
    Constraints.check_route rt handler route speeds time fuel w = Ok (vs, w') ->
    F64.le F64.zero (Constraints.calculate_penalty vs) = true.

(** Limits a handler is meant to be built with: positive finite numbers. *)
Definition positive (x : float64) : Prop :=
  F64.is_finite x = true /\ F64.lt F64.zero x = true.

Definition handler_wf (handler : Constraints.ConstraintHandler) : Prop :=
  positive (Constraints.min_depth handler)
  /\ positive (Constraints.min_speed handler)
  /\ positive (Constraints.max_speed handler)
  /\ match Constraints.max_fuel handler with
     | Some mf => positive mf
     | None => True
     end.

(** A weighted sum that did not go up: it is the one before, or strictly
    below it. *)
Definition decreased (old new : float64) : Prop :=
  new = old \/ F64.lt new old = true.

(** The same, for the global best, whose vector may come from a particle
    with an undefined (NaN) weighted sum. *)
Definition decreased_or_nan (old new : float64) : Prop :=
  new = old \/ F64.lt new old = true \/ F64.is_nan new = true.

(** The process [rt] with another wall clock. *)
Definition with_clock (rt : Runtime) (clock : nat -> float64) : Runtime :=
  {| random_stream := random_stream rt; wall_clock := clock;
     np_argsort := np_argsort rt |}.

(** An ocean whose storm risk does not depend on the time of the query. *)
Definition storm_time_independent (o : OceanGrid) : Prop :=
  forall lat lon t t', get_storm_risk o lat lon t = get_storm_risk o lat lon t'.

(** What [iterate]'s loop body leaves of a particle [p] in [p']. *)
Definition updated (rt : Runtime) (s : Setup) (p p' : Particle) : Prop :=
  length (position p') = length (position p)
  /\ pinned s p'
  /\ speeds p' = speeds p
  /\ exists obj vs w1 w',
       Constraints.check_route rt (constraints s) (position p')
         (Some (speeds p)) None None w1 = Ok (vs, w')
       /\ fitness p'
          = (weighted_sum s obj + Constraints.calculate_penalty vs)%F
       /\ personal_best_obj p'
          = if F64.lt (fitness p') (weighted_sum s (personal_best_obj p))
            then obj else personal_best_obj p.

(** A fitness below a bound puts the personal best's weighted sum below it,
    unless that sum is undefined. *)
Definition best_below_fitness (s : Setup) (p : Particle) : Prop :=
  forall bound, F64.lt (fitness p) bound = true ->
    F64.lt (weighted_sum s (personal_best_obj p)) bound = true
    \/ F64.is_nan (weighted_sum s (personal_best_obj p)) = true.

(** What the opposition step leaves of a particle. *)
Definition opposed (p p' : Particle) : Prop :=
  length (position p') = length (position p)
  /\ position p' !! 0%nat = position p !! 0%nat
  /\ position p' !! (length (position p) - 1)%nat
     = position p !! (length (position p) - 1)%nat
  /\ personal_best_obj p' = personal_best_obj p.

(** Zero or above (so not NaN). *)
Definition nonneg (x : float64) : Prop := F64.le F64.zero x = true.

(** A violation whose severity is not negative. *)
Definition severity_ok (v : Constraints.ConstraintViolation) : Prop :=
  nonneg (Constraints.severity v).

(** How the bests of the engine [self'] compare with those of [self]. *)
Definition bests_decreased (self self' : HACOPSOEngine) : Prop :=
  Forall2 (fun p p' =>
             decreased (weighted_sum (setup self) (personal_best_obj p))
               (weighted_sum (setup self) (personal_best_obj p')))
    (particles self) (particles self')
  /\ (is_Some (global_best self) ->
      forall g, global_best_obj self = Some g ->
        exists g', global_best_obj self' = Some g'
                   /\ decreased_or_nan (weighted_sum (setup self) g)
                        (weighted_sum (setup self) g')).

(** Two computations that do the same in every world. *)
Definition same {A} (m m' : Py A) : Prop := forall w, m w = m' w.

(** The engine's handler looks at an ocean with time-independent storms. *)
Definition time_invariant (self : HACOPSOEngine) : Prop :=
  storm_time_independent (Constraints.ocean (constraints (setup self))).

(** A run: construction of the engine, then [optimize]. *)
Definition run (rt : Runtime) (np : NumpyMath) (config : HACOPSOConfig)
    (objective_func : Objectives.ObjectiveFunction)
    (constraint_handler : Constraints.ConstraintHandler)
    (origin destination : waypoint) (weights : option vec)
    (warm_start : option (list Route)) : Py (optimize_result * HACOPSOEngine) :=
  self ← __init__ rt config objective_func constraint_handler origin
           destination weights;
  optimize rt np self warm_start.

(** [P] holds of the value [r] returns; false if [r] raises. *)
Definition after {A} (r : result A) (P : A -> Prop) : Prop :=
  match r with Ok a => P a | Raise _ => False end.

(** The [convergence] entry of the result of a run. *)
Definition convergence_of
    (r : result (optimize_result * HACOPSOEngine * world))
    : option (list float64) :=
  match r with Ok (res, _, _) => Some (convergence res) | Raise _ => None end.

End EngineSpec.

(** ** Concrete environments for the examples *)
Module Examples.

(** NumPy's elementary functions at the arguments the examples reach, where
    they are exact: [sin 0 = 0], [cos 0 = 1], [sqrt 0 = 0], [sqrt 1 = 1],
    [arctan2(0, x) = 0] for [x >= 0].  [NaN] stands for a value that is not
    tabulated. *)
Definition np_exact : NumpyMath :=
  {| np_pi := f64 355 113;
     np_sin := fun x => if (x ==? F64.zero)%F then F64.zero else NaN;
     np_cos := fun x => if (x ==? F64.zero)%F then F64.one else NaN;
     np_sqrt := fun x => if (x ==? F64.zero)%F then F64.zero
                         else if (x ==? F64.one)%F then F64.one else NaN;
     np_arctan2 := fun y x =>
       if ((y ==? F64.zero) && (F64.zero <=? x))%F then F64.zero else NaN |}.

(** The ship of the tests: 14 kt service speed, between 8 and 18 kt. *)
Definition test_ship : Ship.ShipProfile :=
  {| Ship.service_speed := f64 14 1; Ship.min_speed := f64 8 1;
     Ship.max_speed := f64 18 1; Ship.sfc_design := f64 180 1;
     Ship.power_coef_a := F64.zero; Ship.power_coef_b := F64.zero;
     Ship.power_coef_c := F64.zero; Ship.power_coef_d := F64.one |}.

(** Open deep water whose storm risk is [risk] at every point up to time
    [valid_until] and zero afterwards. *)
Definition storm_until (risk valid_until : float64) : OceanGrid :=
  {| is_land := fun _ _ => Some false;
     get_depth := fun _ _ => Some (Some (f64 1000 1));
     get_wave_height := fun _ _ _ => Some F64.zero;
     get_current_vector := fun _ _ _ => Some (F64.zero, F64.zero);
     get_resistance := fun _ _ _ => Some F64.one;
     get_storm_risk := fun _ _ t =>
       Some (if (t >? valid_until)%F then F64.zero else risk);
     get_piracy_risk := fun _ _ => Some F64.zero |}.

Definition calm_ocean : OceanGrid := storm_until F64.zero F64.zero.

(** Calm deep water whose resistance query raises. *)
Definition faulty_ocean : OceanGrid :=
  {| is_land := fun _ _ => Some false;
     get_depth := fun _ _ => Some (Some (f64 1000 1));
     get_wave_height := fun _ _ _ => Some F64.zero;
     get_current_vector := fun _ _ _ => Some (F64.zero, F64.zero);
     get_resistance := fun _ _ _ => None;
     get_storm_risk := fun _ _ _ => Some F64.zero;
     get_piracy_risk := fun _ _ => Some F64.zero |}.

(** A straight coast: land wherever [lat - lon < 1.5]. *)
Definition diagonal_coast : OceanGrid :=
  {| is_land := fun lat lon => Some (lat - lon <? f64 15 10)%F;
     get_depth := fun _ _ => Some None;
     get_wave_height := fun _ _ _ => Some F64.zero;
     get_current_vector := fun _ _ _ => Some (F64.zero, F64.zero);
     get_resistance := fun _ _ _ => Some F64.one;
     get_storm_risk := fun _ _ _ => Some F64.zero;
     get_piracy_risk := fun _ _ => Some F64.zero |}.

Definition objective_on (o : OceanGrid) : Objectives.ObjectiveFunction :=
  {| Objectives.ship := test_ship; Objectives.ocean := o;
     Objectives.departure_time := F64.zero |}.

Definition handler_on (o : OceanGrid) : Constraints.ConstraintHandler :=
  {| Constraints.ocean := o; Constraints.min_depth := f64 15 1;
     Constraints.min_speed := f64 8 1; Constraints.max_speed := f64 18 1;
     Constraints.max_fuel := None |}.

(** A process whose random stream gives [r] at every draw and whose clock
    reads [t] at every reading. *)
Definition constant_runtime (r t : float64) : Runtime :=
  {| random_stream := fun _ => r; wall_clock := fun _ => t;
     np_argsort := stable_argsort |}.

Definition start : world := {| rng_pos := 0; clock_pos := 0 |}.

Import Hacopso.

(** A small configuration: [n] particles, one interior waypoint, one
    iteration. *)
Definition small_config (n : nat) : HACOPSOConfig :=
  {| swarm_size := n; max_iterations := 1; archive_size := 100;
     w_max := f64 9 10; w_min := f64 4 10; c1 := f64 2 1; c2 := f64 2 1;
     v_max_lat := f64 2 1; v_max_lon := f64 2 1; opposition_rate := f64 3 10;
     chaos_type := LOGISTIC; n_waypoints := 1; stagnation_limit := 20 |}.

(** Origin and destination of the example runs. *)
Definition harbour : waypoint := (F64.zero, F64.zero).

(** A warm-start route that begins away from the harbour. *)
Definition off_route : Route := [(f64 1 1, f64 1 1); harbour; harbour].

(** The swarm of [n] particles between [harbour] and [harbour], initialised. *)
Definition swarm (rt : Runtime) (n : nat) (o : OceanGrid)
    (warm_start : option (list Route)) : Py HACOPSOEngine :=
  self ← __init__ rt (small_config n) (objective_on o) (handler_on o)
           harbour harbour None;
  initialize_swarm rt np_exact self warm_start.

End Examples.

(** * Properties *)

(** ** The order on [float64] *)
Module F64Facts.

Lemma Qle_bool_true (x y : Q) : Qle_bool x y = true <-> (x <= y)%Q.
Proof. apply Qle_bool_iff. Qed.

Lemma Qle_bool_false (x y : Q) : Qle_bool x y = false <-> (y < x)%Q.
Proof.
  split; intros H.
  - apply Qnot_le_lt. intros Hle. apply Qle_bool_iff in Hle. congruence.
  - destruct (Qle_bool x y) eqn:E; [|done].
    apply Qle_bool_iff in E. exfalso. apply (Qlt_not_le _ _ H E).
Qed.

(** Turns the boolean comparisons of rationals in the context and the goal
    into propositions, and closes the goal by linear arithmetic. *)
Ltac q_bool :=
  repeat match goal with
  | H : negb _ = true |- _ => apply negb_true_iff in H
  | H : negb _ = false |- _ => apply negb_false_iff in H
  | H : Qle_bool _ _ = true |- _ => apply Qle_bool_true in H
  | H : Qle_bool _ _ = false |- _ => apply Qle_bool_false in H
  | |- negb _ = true => apply negb_true_iff
  | |- negb _ = false => apply negb_false_iff
  | |- Qle_bool _ _ = true => apply Qle_bool_true
  | |- Qle_bool _ _ = false => apply Qle_bool_false
  end;
  try lra.

Ltac f64_cases :=
  repeat match goal with x : float64 |- _ => destruct x end;
  simpl in *; try done; q_bool.

Lemma le_trans (a b c : float64) :
  F64.le a b = true -> F64.le b c = true -> F64.le a c = true.
Proof. unfold F64.le. intros; f64_cases. Qed.

Lemma lt_trans (a b c : float64) :
  F64.lt a b = true -> F64.lt b c = true -> F64.lt a c = true.
Proof. unfold F64.lt. intros; f64_cases. Qed.

Lemma lt_le_trans (a b c : float64) :
  F64.lt a b = true -> F64.le b c = true -> F64.lt a c = true.
Proof. unfold F64.lt, F64.le. intros; f64_cases. Qed.

Lemma le_lt_trans (a b c : float64) :
  F64.le a b = true -> F64.lt b c = true -> F64.lt a c = true.
Proof. unfold F64.lt, F64.le. intros; f64_cases. Qed.

Lemma lt_le (a b : float64) : F64.lt a b = true -> F64.le a b = true.
Proof. unfold F64.lt, F64.le. intros; f64_cases. Qed.

Lemma lt_irrefl (a : float64) : F64.lt a a = false.
Proof. unfold F64.lt. f64_cases. Qed.

Lemma le_not_lt (a b : float64) : F64.le a b = true -> F64.lt b a = false.
Proof. unfold F64.lt, F64.le. intros; f64_cases. Qed.

Lemma lt_not_lt (a b : float64) : F64.lt a b = true -> F64.lt b a = false.
Proof. intros H. by apply le_not_lt, lt_le. Qed.

Lemma le_refl (a : float64) : F64.is_nan a = false -> F64.le a a = true.
Proof. unfold F64.le. intros; f64_cases. Qed.

Lemma not_lt_le (a b : float64) :
  F64.is_nan a = false -> F64.is_nan b = false ->
  F64.lt a b = false -> F64.le b a = true.
Proof. unfold F64.lt, F64.le. intros; f64_cases. Qed.

Lemma lt_not_nan_l (a b : float64) : F64.lt a b = true -> F64.is_nan a = false.
Proof. unfold F64.lt. intros; f64_cases. Qed.

Lemma lt_not_nan_r (a b : float64) : F64.lt a b = true -> F64.is_nan b = false.
Proof. unfold F64.lt. intros; f64_cases. Qed.

Lemma eqb_le_r (a b c : float64) :
  F64.eqb b c = true -> F64.le a b = F64.le a c.
Proof.
  unfold F64.eqb, F64.le. intros H.
  destruct a, b, c; simpl in *; try done.
  apply Qeq_bool_iff in H.
  destruct (Qle_bool q q0) eqn:E1, (Qle_bool q q1) eqn:E2; try done; q_bool.
Qed.

Lemma eqb_le_l (a b c : float64) :
  F64.eqb a b = true -> F64.le a c = F64.le b c.
Proof.
  unfold F64.eqb, F64.le. intros H.
  destruct a, b, c; simpl in *; try done.
  apply Qeq_bool_iff in H.
  destruct (Qle_bool q q1) eqn:E1, (Qle_bool q0 q1) eqn:E2; try done; q_bool.
Qed.

Lemma eqb_lt_r (a b c : float64) :
  F64.eqb b c = true -> F64.lt a b = F64.lt a c.
Proof.
  unfold F64.eqb, F64.lt. intros H.
  destruct a, b, c; simpl in *; try done.
  apply Qeq_bool_iff in H. f_equal.
  destruct (Qle_bool q0 q) eqn:E1, (Qle_bool q1 q) eqn:E2; try done; q_bool.
Qed.

Lemma eqb_lt_l (a b c : float64) :
  F64.eqb a b = true -> F64.lt a c = F64.lt b c.
Proof.
  unfold F64.eqb, F64.lt. intros H.
  destruct a, b, c; simpl in *; try done.
  apply Qeq_bool_iff in H. f_equal.
  destruct (Qle_bool q1 q) eqn:E1, (Qle_bool q1 q0) eqn:E2; try done; q_bool.
Qed.

Lemma eqb_not_lt (a b : float64) : F64.eqb a b = true -> F64.lt a b = false.
Proof.
  unfold F64.eqb, F64.lt. intros H.
  destruct a, b; simpl in *; try done.
  apply Qeq_bool_iff in H. q_bool.
Qed.

(** Adding a non-negative penalty cannot bring a sum below a bound its first
    summand is not already below. *)
Lemma lt_add_nonneg (x p bound : float64) :
  F64.le F64.zero p = true ->
  F64.lt (x + p)%F bound = true -> F64.lt x bound = true.
Proof.
  unfold F64.le, F64.lt, F64.add, F64.zero. intros Hp H.
  destruct x, p, bound; simpl in *; try done.
  q_bool. rewrite Qred_correct in H. lra.
Qed.

Lemma le_add_nonneg (x p : float64) :
  F64.le F64.zero p = true -> F64.is_nan (x + p)%F = false ->
  F64.le x (x + p)%F = true.
Proof.
  unfold F64.le, F64.add, F64.zero, F64.is_nan. intros Hp H.
  destruct x, p; simpl in *; try done.
  q_bool. rewrite Qred_correct. lra.
Qed.

End F64Facts.

(** ** Pareto dominance *)
Module DominanceFacts.
Import Pareto.

Lemma dominates_cons (x y : float64) (a b : vec) :
  dominates (x :: a) (y :: b)
  = (F64.le x y && forallb id (zip_with F64.le a b))
    && (F64.lt x y || existsb id (zip_with F64.lt a b)).
Proof. reflexivity. Qed.

Lemma all_le_trans (a b c : vec) :
  length a = length b ->
  forallb id (zip_with F64.le a b) = true ->
  forallb id (zip_with F64.le b c) = true ->
  forallb id (zip_with F64.le a c) = true.
Proof.
  revert b c. induction a as [|x a IH]; intros [|y b] [|z c] Hab Hle1 Hle2;
    simpl in *; try done.
  apply andb_true_iff in Hle1 as [H1 H2]. apply andb_true_iff in Hle2 as [H3 H4].
  apply andb_true_iff. split.
  - exact (F64Facts.le_trans x y z H1 H3).
  - apply (IH b c); [congruence|done|done].
Qed.

Lemma any_lt_all_le (a b c : vec) :
  length b = length c ->
  forallb id (zip_with F64.le b c) = true ->
  existsb id (zip_with F64.lt a b) = true ->
  existsb id (zip_with F64.lt a c) = true.
Proof.
  revert b c. induction a as [|x a IH]; intros [|y b] [|z c] Hbc Hle Hlt;
    simpl in *; try done.
  apply andb_true_iff in Hle as [H1 H2]. apply orb_true_iff in Hlt as [H3|H3];
    apply orb_true_iff.
  - left. exact (F64Facts.lt_le_trans x y z H3 H1).
  - right. apply (IH b c); [congruence|done|done].
Qed.

Lemma any_lt_refl (a : vec) : existsb id (zip_with F64.lt a a) = false.
Proof.
  induction a as [|x a IH]; simpl; [done|].
  by rewrite F64Facts.lt_irrefl, IH.
Qed.

Lemma all_le_no_lt_back (a b : vec) :
  forallb id (zip_with F64.le a b) = true ->
  existsb id (zip_with F64.lt b a) = false.
Proof.
  revert b. induction a as [|x a IH]; intros [|y b] Hle; simpl in *; try done.
  apply andb_true_iff in Hle as [H1 H2]. apply orb_false_iff. split.
  - by apply F64Facts.le_not_lt.
  - by apply IH.
Qed.

Lemma dominates_irrefl (a : vec) : dominates a a = false.
Proof. unfold dominates. rewrite any_lt_refl. apply andb_false_r. Qed.

Lemma dominates_asym (a b : vec) :
  dominates a b = true -> dominates b a = false.
Proof.
  unfold dominates. rewrite andb_true_iff. intros [H _].
  rewrite (all_le_no_lt_back a b H). apply andb_false_r.
Qed.

Lemma dominates_trans (a b c : vec) :
  length a = length b -> length b = length c ->
  dominates a b = true -> dominates b c = true -> dominates a c = true.
Proof.
  unfold dominates. rewrite !andb_true_iff. intros Hab Hbc [H1 H2] [H3 H4].
  split.
  - exact (all_le_trans a b c Hab H1 H3).
  - exact (any_lt_all_le a b c Hbc H3 H2).
Qed.

Lemma vec_eqb_cons (x y : float64) (a b : vec) :
  vec_eqb (x :: a) (y :: b) = true <-> F64.eqb x y = true /\ vec_eqb a b = true.
Proof.
  unfold vec_eqb. simpl. rewrite !andb_true_iff. tauto.
Qed.

Lemma all_le_eqb_r (a b c : vec) :
  vec_eqb b c = true ->
  forallb id (zip_with F64.le a b) = forallb id (zip_with F64.le a c).
Proof.
  revert b c. induction a as [|x a IH]; intros [|y b] [|z c] H; try done.
  apply vec_eqb_cons in H as [H1 H2]. simpl.
  by rewrite (F64Facts.eqb_le_r x y z H1), (IH b c H2).
Qed.

Lemma any_lt_eqb_r (a b c : vec) :
  vec_eqb b c = true ->
  existsb id (zip_with F64.lt a b) = existsb id (zip_with F64.lt a c).
Proof.
  revert b c. induction a as [|x a IH]; intros [|y b] [|z c] H; try done.
  apply vec_eqb_cons in H as [H1 H2]. simpl.
  by rewrite (F64Facts.eqb_lt_r x y z H1), (IH b c H2).
Qed.

Lemma all_le_eqb_l (a b c : vec) :
  vec_eqb a b = true ->
  forallb id (zip_with F64.le a c) = forallb id (zip_with F64.le b c).
Proof.
  revert b c. induction a as [|x a IH]; intros [|y b] [|z c] H; try done.
  apply vec_eqb_cons in H as [H1 H2]. simpl.
  by rewrite (F64Facts.eqb_le_l x y z H1), (IH b c H2).
Qed.

Lemma any_lt_eqb_l (a b c : vec) :
  vec_eqb a b = true ->
  existsb id (zip_with F64.lt a c) = existsb id (zip_with F64.lt b c).
Proof.
  revert b c. induction a as [|x a IH]; intros [|y b] [|z c] H; try done.
  apply vec_eqb_cons in H as [H1 H2]. simpl.
  by rewrite (F64Facts.eqb_lt_l x y z H1), (IH b c H2).
Qed.

Lemma dominates_eqb_r (a b c : vec) :
  vec_eqb b c = true -> dominates a b = dominates a c.
Proof.
  intros H. unfold dominates.
  by rewrite (all_le_eqb_r a b c H), (any_lt_eqb_r a b c H).
Qed.

Lemma dominates_eqb_l (a b c : vec) :
  vec_eqb a b = true -> dominates a c = dominates b c.
Proof.
  intros H. unfold dominates.
  by rewrite (all_le_eqb_l a b c H), (any_lt_eqb_l a b c H).
Qed.

Lemma vec_eqb_no_dominates (a b : vec) :
  vec_eqb a b = true -> dominates a b = false.
Proof.
  intros H. rewrite <- (dominates_eqb_r a a b H). apply dominates_irrefl.
Qed.

Lemma vec_eqb_no_dominates_back (a b : vec) :
  vec_eqb a b = true -> dominates b a = false.
Proof.
  intros H. rewrite <- (dominates_eqb_l a b a H). apply dominates_irrefl.
Qed.

(** C7: [dominates] is a strict partial order on objective vectors: it is
    irreflexive, it never holds in both directions, and on vectors of one
    dimension it is transitive. *)
Theorem dominates_strict_partial_order (a b c : vec) :
  dominates a a = false
  /\ (dominates a b = true -> dominates b a = false)
  /\ (length a = length b -> length b = length c ->
      dominates a b = true -> dominates b c = true -> dominates a c = true).
Proof.
  split; [apply dominates_irrefl|].
  split; [apply dominates_asym|apply dominates_trans].
Qed.

(** The objective vectors of the tests: (1,2,3) dominates (2,3,4), which
    dominates (3,4,5). *)
Lemma dominates_strict_partial_order_witness :
  let a := [f64 1 1; f64 2 1; f64 3 1] in
  let b := [f64 2 1; f64 3 1; f64 4 1] in
  let c := [f64 3 1; f64 4 1; f64 5 1] in
  dominates a b = true /\ dominates b c = true
  /\ dominates a a = false /\ dominates b a = false /\ dominates a c = true.
Proof.
  intros a b c.
  pose proof (dominates_strict_partial_order a b c) as (H1 & H2 & H3).
  assert (Hab : dominates a b = true) by reflexivity.
  assert (Hbc : dominates b c = true) by reflexivity.
  split; [exact Hab|]. split; [exact Hbc|]. split; [exact H1|].
  split; [exact (H2 Hab)|].
  exact (H3 eq_refl eq_refl Hab Hbc).
Defined.

End DominanceFacts.

(** ** The Pareto archive *)
Module ArchiveFacts.
Import Pareto DominanceFacts ArchiveSpec.

Lemma elem_of_select {A} (l : list A) (indices : list nat) (x : A) :
  x ∈ select l indices -> x ∈ l.
Proof.
  unfold select. intros H. apply list_elem_of_omap in H as (i & _ & Hi).
  by eapply list_elem_of_lookup_2.
Qed.

Lemma length_select_le {A} (l : list A) (indices : list nat) :
  (length (select l indices) <= length indices)%nat.
Proof.
  unfold select, omap. induction indices as [|i indices IH]; simpl; [done|].
  destruct (l !! i); simpl; lia.
Qed.

Lemma length_select_sync {A B} (l1 : list A) (l2 : list B) (indices : list nat) :
  length l1 = length l2 ->
  length (select l1 indices) = length (select l2 indices).
Proof.
  intros Hlen. unfold select, omap.
  induction indices as [|i indices IH]; simpl; [done|].
  destruct (l1 !! i) eqn:E1, (l2 !! i) eqn:E2; simpl; try lia.
  - apply lookup_lt_Some in E1. apply lookup_ge_None in E2. lia.
  - apply lookup_lt_Some in E2. apply lookup_ge_None in E1. lia.
Qed.

Lemma indices_to_keep_sound (obj : vec) (objs : list vec) (i k : nat) :
  k ∈ indices_to_keep obj i objs ->
  exists e, (i <= k)%nat /\ objs !! (k - i)%nat = Some e /\ dominates obj e = false.
Proof.
  revert i. induction objs as [|x objs IH]; intros i; simpl.
  - by intros ?%elem_of_nil.
  - destruct (dominates obj x) eqn:E.
    + intros (e & Hle & Hl & Hd)%IH. exists e. split; [lia|]. split; [|done].
      replace (k - i)%nat with (S (k - S i)) by lia. done.
    + intros [->|(e & Hle & Hl & Hd)%IH]%elem_of_cons.
      * exists x. split; [lia|]. split; [|done]. by rewrite Nat.sub_diag.
      * exists e. split; [lia|]. split; [|done].
        replace (k - i)%nat with (S (k - S i)) by lia. done.
Qed.

Lemma select_keep_not_dominated (obj : vec) (objs : list vec) (e : vec) :
  e ∈ select objs (indices_to_keep obj 0 objs) -> dominates obj e = false.
Proof.
  unfold select. intros (k & Hk & Hl)%list_elem_of_omap.
  apply indices_to_keep_sound in Hk as (e' & _ & Hl' & Hd).
  rewrite Nat.sub_0_r in Hl'. congruence.
Qed.

Lemma antichain_nil : antichain [].
Proof. intros a b Ha. by apply elem_of_nil in Ha. Qed.

Lemma antichain_select (objs : list vec) (indices : list nat) :
  antichain objs -> antichain (select objs indices).
Proof. intros H a b Ha Hb. apply H; by eapply elem_of_select. Qed.

Lemma existsb_false_elem {A} (f : A -> bool) (l : list A) (x : A) :
  existsb f l = false -> x ∈ l -> f x = false.
Proof.
  induction l as [|y l IH]; simpl; [by intros _ ?%elem_of_nil|].
  intros [H1 H2]%orb_false_iff [->|Hx]%elem_of_cons; [done|by apply IH].
Qed.

Lemma truncate_inv (argsort : argsort_fn) (self : ParetoArchiveManager) :
  antichain (objectives self) -> in_sync self ->
  archive_inv (_truncate argsort self).
Proof.
  intros Hanti [Hs Hm]. unfold _truncate, archive_inv, in_sync, size.
  destruct (length (solutions self) <=? max_size self)%nat eqn:E; simpl.
  - apply Nat.leb_le in E. done.
  - split; [by apply antichain_select|]. split.
    + etrans; [apply length_select_le|]. unfold truncate_indices.
      rewrite length_take. lia.
    + split; by apply length_select_sync.
Qed.

Lemma add_inv (argsort : argsort_fn) (self : ParetoArchiveManager)
    (solution : Route) (obj : vec) (md : option meta) :
  archive_inv self -> archive_inv (add argsort self solution obj md).2.
Proof.
  intros (Hanti & Hsize & Hs & Hm). unfold add.
  destruct (existsb _ (objectives self)) eqn:Hdom; simpl; [done|].
  set (keep := indices_to_keep obj 0 (objectives self)).
  set (self1 := {| max_size := _ |}).
  assert (Hanti1 : antichain (objectives self1)).
  { intros a b [Ha| ->%list_elem_of_singleton]%elem_of_app
                [Hb| ->%list_elem_of_singleton]%elem_of_app.
    - apply Hanti; by eapply elem_of_select.
    - apply elem_of_select in Ha.
      exact (existsb_false_elem _ _ a Hdom Ha).
    - by apply select_keep_not_dominated in Hb.
    - apply dominates_irrefl. }
  assert (Hsync1 : in_sync self1).
  { split; simpl; rewrite !length_app; simpl; f_equal;
      by apply length_select_sync. }
  destruct (max_size self <? _)%nat eqn:E.
  - by apply truncate_inv.
  - apply Nat.ltb_ge in E. done.
Qed.

Lemma max_size_add (argsort : argsort_fn) (self : ParetoArchiveManager)
    (solution : Route) (obj : vec) (md : option meta) :
  max_size (add argsort self solution obj md).2 = max_size self.
Proof.
  unfold add. destruct (existsb _ _); simpl; [done|].
  destruct (_ <? _)%nat; [|done]. unfold _truncate.
  by destruct (_ <=? _)%nat.
Qed.

Lemma add_all_inv (argsort : argsort_fn) (self : ParetoArchiveManager)
    (calls : list insertion) :
  archive_inv self -> archive_inv (add_all argsort self calls).
Proof.
  revert self. induction calls as [|c calls IH]; intros self H; simpl; [done|].
  apply IH. by apply add_inv.
Qed.

Lemma max_size_add_all (argsort : argsort_fn) (self : ParetoArchiveManager)
    (calls : list insertion) :
  max_size (add_all argsort self calls) = max_size self.
Proof.
  revert self. induction calls as [|c calls IH]; intros self; simpl; [done|].
  by rewrite IH, max_size_add.
Qed.

(** C1: after every call of [add] on an archive built by the constructor,
    whatever order [argsort] returns, no entry's objective vector dominates
    another's and the archive holds at most [max_size] entries. *)
Theorem archive_antichain_and_bound (argsort : argsort_fn) (bound : nat)
    (calls : list insertion) :
  let self := add_all argsort (__init__ bound) calls in
  antichain (objectives self)
  /\ (size self <= bound)%nat
  /\ length (objectives self) = size self.
Proof.
  intros self.
  assert (H : archive_inv self).
  { apply add_all_inv. split; [apply antichain_nil|].
    split; [unfold size; simpl; lia|done]. }
  destruct H as (H1 & H2 & H3 & H4).
  split; [done|]. split; [|done].
  unfold self in *. by rewrite max_size_add_all in H2.
Qed.

Lemma indices_to_keep_all (obj : vec) (objs : list vec) (i : nat) :
  (forall e, e ∈ objs -> dominates obj e = false) ->
  indices_to_keep obj i objs = seq i (length objs).
Proof.
  revert i. induction objs as [|x objs IH]; intros i H; simpl; [done|].
  rewrite (H x) by apply list_elem_of_here. f_equal.
  apply IH. intros e He. apply H. by apply list_elem_of_further.
Qed.

Lemma select_seq {A} (l : list A) (i : nat) :
  select l (seq i (length l - i)) = drop i l.
Proof.
  unfold select, omap.
  remember (length l - i)%nat as n eqn:Hn. revert i Hn.
  induction n as [|n IH]; intros i Hn; simpl.
  - rewrite drop_ge by lia. done.
  - destruct (l !! i) as [x|] eqn:E.
    + rewrite (IH (S i)) by lia. symmetry. by apply drop_S.
    + apply lookup_ge_None in E. lia.
Qed.

Lemma select_all {A} (l : list A) (n : nat) :
  length l = n -> select l (seq 0 n) = l.
Proof.
  intros <-. rewrite <- (Nat.sub_0_r (length l)) at 1. by rewrite select_seq.
Qed.

(** C9, as the code has it: on an archive that satisfies its invariant and
    holds fewer than [max_size] entries, [add] with an objective vector
    componentwise equal to an existing entry's returns [True], keeps every
    entry in place and appends the new one. *)
Theorem add_equal_objectives_appends (argsort : argsort_fn)
    (self : ParetoArchiveManager) (solution : Route) (obj existing : vec)
    (md : option meta) :
  archive_inv self ->
  (size self < max_size self)%nat ->
  existing ∈ objectives self ->
  vec_eqb obj existing = true ->
  add argsort self solution obj md
  = (true, {| max_size := max_size self;
              solutions := solutions self ++ [solution];
              objectives := objectives self ++ [obj];
              metadata := metadata self ++ [default [] md] |}).
Proof.
  intros (Hanti & _ & Hs & Hm) Hsize Hin Heq. unfold add.
  assert (Hnone : existsb (fun e => dominates e obj) (objectives self) = false).
  { apply not_true_iff_false. intros (e & He & Hd)%existsb_exists.
    apply list_elem_of_In in He.
    rewrite (dominates_eqb_r e obj existing Heq) in Hd.
    by rewrite (Hanti e existing He Hin) in Hd. }
  rewrite Hnone.
  rewrite indices_to_keep_all.
  2:{ intros e He. rewrite (dominates_eqb_l obj existing e Heq).
      by apply Hanti. }
  rewrite !select_all by done. simpl.
  rewrite length_app. simpl. unfold size in Hsize.
  replace (max_size self <? length (solutions self) + 1)%nat with false; [done|].
  symmetry. apply Nat.ltb_ge. lia.
Qed.

(** An archive of bound 2 holding the vector (1, 2) takes a second (1, 2). *)
Lemma add_equal_objectives_appends_witness :
  let a := [f64 1 1; f64 2 1] in
  let old := [(f64 0 1, f64 0 1)] in
  let new := [(f64 9 1, f64 9 1)] in
  let self := {| max_size := 2; solutions := [old]; objectives := [a];
                 metadata := [[]] |} in
  add stable_argsort self new a None
  = (true, {| max_size := 2; solutions := [old; new]; objectives := [a; a];
              metadata := [[]; []] |}).
Proof.
  intros a old new self.
  apply (add_equal_objectives_appends stable_argsort self new a a None).
  - split; [|split; [unfold size; simpl; lia|done]].
    intros x y ->%list_elem_of_singleton ->%list_elem_of_singleton.
    reflexivity.
  - unfold size; simpl; lia.
  - apply list_elem_of_here.
  - reflexivity.
Defined.

(** C9 as stated fails on a full archive: with bound 1 and the vector (1, 2)
    already held, adding (1, 2) again returns [True] and leaves the archive as
    it was, the new entry truncated away. *)
Lemma add_equal_objectives_full_archive :
  let a := [f64 1 1; f64 2 1] in
  let old := [(f64 0 1, f64 0 1)] in
  let new := [(f64 9 1, f64 9 1)] in
  let self := {| max_size := 1; solutions := [old]; objectives := [a];
                 metadata := [[]] |} in
  add stable_argsort (__init__ 1) old a None = (true, self)
  /\ add stable_argsort self new a None = (true, self).
Proof. split; reflexivity. Qed.

End ArchiveFacts.

(** ** Sorting *)
Module SortFacts.

Lemma np_sort_le_total (a b : float64) :
  np_sort_le a b = false -> np_sort_le b a = true.
Proof.
  unfold np_sort_le, F64.le, F64.is_nan.
  destruct a, b; simpl; try done. intros H. F64Facts.q_bool.
Qed.

Lemma np_sort_le_trans (a b c : float64) :
  np_sort_le a b = true -> np_sort_le b c = true -> np_sort_le a c = true.
Proof.
  unfold np_sort_le, F64.le, F64.is_nan.
  destruct a, b, c; simpl; try done. intros; F64Facts.q_bool.
Qed.

Lemma np_sort_le_refl (a : float64) : np_sort_le a a = true.
Proof.
  unfold np_sort_le, F64.le, F64.is_nan. destruct a; simpl; try done.
  F64Facts.q_bool.
Qed.

Lemma insert_sorted_perm (keys : vec) (i : nat) (l : list nat) :
  insert_sorted keys i l ≡ₚ i :: l.
Proof.
  induction l as [|j l IH]; simpl; [done|].
  destruct (np_sort_le _ _); [|done].
  rewrite IH. apply perm_swap.
Qed.

Lemma insert_sorted_sorted (keys : vec) (i : nat) (l : list nat) :
  StronglySorted (key_le keys) l ->
  StronglySorted (key_le keys) (insert_sorted keys i l).
Proof.
  induction l as [|j l IH]; simpl; intros Hs.
  - repeat constructor.
  - apply StronglySorted_inv in Hs as [Hs Hall].
    destruct (np_sort_le (keys !!! j) (keys !!! i)) eqn:E.
    + constructor; [by apply IH|].
      rewrite (insert_sorted_perm keys i l). by constructor.
    + apply np_sort_le_total in E.
      constructor; [by constructor|].
      constructor; [done|].
      eapply Forall_impl; [exact Hall|]. intros k Hk.
      exact (np_sort_le_trans _ _ _ E Hk).
Qed.

Lemma foldl_insert_perm (keys : vec) (l acc : list nat) :
  foldl (fun acc i => insert_sorted keys i acc) acc l ≡ₚ l ++ acc.
Proof.
  revert acc. induction l as [|i l IH]; intros acc; simpl; [done|].
  rewrite IH, insert_sorted_perm. by rewrite Permutation_middle.
Qed.

Lemma foldl_insert_sorted (keys : vec) (l acc : list nat) :
  StronglySorted (key_le keys) acc ->
  StronglySorted (key_le keys)
    (foldl (fun acc i => insert_sorted keys i acc) acc l).
Proof.
  revert acc. induction l as [|i l IH]; intros acc Hs; simpl; [done|].
  by apply IH, insert_sorted_sorted.
Qed.

Lemma sorted_lookup (keys : vec) (l : list nat) (i j ki kj : nat) :
  StronglySorted (key_le keys) l -> (i <= j)%nat ->
  l !! i = Some ki -> l !! j = Some kj -> key_le keys ki kj.
Proof.
  intros Hs Hij Hi Hj.
  destruct (decide (i = j)) as [->|Hne].
  - assert (ki = kj) as -> by congruence. apply np_sort_le_refl.
  - rewrite <- (take_drop j l) in Hs.
    eapply StronglySorted_app_1_elem_of; [exact Hs| |].
    + apply elem_of_take. exists i. split; [done|lia].
    + apply list_elem_of_lookup. exists 0%nat.
      by rewrite lookup_drop, Nat.add_0_r.
Qed.

Lemma stable_argsort_spec : argsort_spec stable_argsort.
Proof.
  split.
  - intros keys. unfold stable_argsort.
    rewrite foldl_insert_perm. by rewrite app_nil_r.
  - intros keys i j ki kj a b Hij Hi Hj Ha Hb.
    assert (Hs : StronglySorted (key_le keys) (stable_argsort keys)).
    { apply foldl_insert_sorted. constructor. }
    pose proof (sorted_lookup keys _ i j ki kj Hs Hij Hi Hj) as H.
    unfold key_le in H.
    by rewrite (list_lookup_total_correct _ _ _ Ha),
      (list_lookup_total_correct _ _ _ Hb) in H.
Qed.

(** What the contract gives: the indices are distinct and in range. *)
Lemma argsort_NoDup (argsort : argsort_fn) (keys : vec) :
  argsort_spec argsort -> NoDup (argsort keys).
Proof.
  intros [Hp _]. rewrite (Hp keys). apply NoDup_seq.
Qed.

Lemma argsort_length (argsort : argsort_fn) (keys : vec) :
  argsort_spec argsort -> length (argsort keys) = length keys.
Proof.
  intros [Hp _]. by rewrite (Hp keys), length_seq.
Qed.

Lemma argsort_elem (argsort : argsort_fn) (keys : vec) (k : nat) :
  argsort_spec argsort -> k ∈ argsort keys <-> (k < length keys)%nat.
Proof.
  intros [Hp _]. rewrite (Hp keys), elem_of_seq. lia.
Qed.

End SortFacts.

(** ** Crowding distance *)
Module CrowdingFacts.
Import Pareto ArchiveSpec ArchiveFacts SortFacts.

Lemma length_interior (indices : list nat) (s : vec) (r : float64)
    (js : list nat) (d : vec) :
  length (foldl (crowding_interior indices s r) d js) = length d.
Proof.
  revert d. induction js as [|i js IH]; intros d; simpl; [done|].
  rewrite IH. unfold crowding_interior. apply length_insert.
Qed.

Lemma length_crowding_objective (argsort : argsort_fn) (front : list vec)
    (n : nat) (d : vec) (m0 : nat) :
  length (crowding_objective argsort front n d m0) = length d.
Proof.
  unfold crowding_objective. cbv zeta.
  destruct (F64.lt _ _); [|rewrite length_interior]; by rewrite !length_insert.
Qed.

Lemma length_crowding_distance (argsort : argsort_fn) (front : list vec) :
  length (crowding_distance argsort front) = length front.
Proof.
  unfold crowding_distance.
  destruct (length front =? 0)%nat eqn:E0.
  { apply Nat.eqb_eq in E0. by rewrite E0. }
  destruct (length front <=? 2)%nat; [by rewrite length_replicate|].
  generalize (seq 0 (length (front !!! 0%nat))). intros ms.
  assert (H : forall d, length (foldl (crowding_objective argsort front
                                         (length front)) d ms) = length d).
  { induction ms as [|m0 ms IH]; intros d; simpl; [done|].
    by rewrite IH, length_crowding_objective. }
  by rewrite H, length_replicate.
Qed.

Lemma small_front_all_inf (argsort : argsort_fn) (front : list vec) (i : nat) :
  (length front <= 2)%nat -> (i < length front)%nat ->
  crowding_distance argsort front !! i = Some PInf.
Proof.
  intros Hn Hi. unfold crowding_distance.
  destruct (length front =? 0)%nat eqn:E0.
  { apply Nat.eqb_eq in E0. lia. }
  apply Nat.leb_le in Hn. rewrite Hn.
  by apply lookup_replicate_2.
Qed.

Lemma finite_quotient (a b r : float64) :
  F64.is_finite a = true -> F64.is_finite b = true -> F64.is_finite r = true ->
  F64.lt r (f64 1 10000000000) = false ->
  F64.is_finite ((a - b) / r)%F = true.
Proof.
  destruct a, b, r; simpl; try done. intros _ _ _ H.
  unfold F64.lt, f64 in H.
  destruct (Qeq_bool q1 0) eqn:E; [|done].
  apply Qeq_bool_iff in E. exfalso. F64Facts.q_bool.
  rewrite Qred_correct in H. lra.
Qed.

Lemma add_finite (x delta : float64) :
  (x = PInf \/ F64.is_finite x = true) -> F64.is_finite delta = true ->
  ((x + delta)%F = PInf \/ F64.is_finite (x + delta)%F = true)
  /\ (x = PInf -> (x + delta)%F = PInf).
Proof.
  intros Hx Hd. destruct delta; try done.
  destruct x; simpl in *; try (destruct Hx; done).
  - split; [by right|done].
  - split; [by left|done].
Qed.

Lemma interior_step (indices : list nat) (s : vec) (r : float64) (d : vec)
    (i : nat) :
  F64.is_finite ((s !!! (i + 1)%nat - s !!! (i - 1)%nat) / r)%F = true ->
  good d ->
  good (crowding_interior indices s r d i)
  /\ forall j, d !! j = Some PInf ->
       crowding_interior indices s r d i !! j = Some PInf.
Proof.
  intros Hfin Hgood. unfold crowding_interior. cbv zeta.
  set (k := indices !!! i).
  destruct (decide (k < length d)%nat) as [Hk|Hk].
  - destruct (lookup_lt_is_Some_2 d k Hk) as [x Hx].
    rewrite (list_lookup_total_correct _ _ _ Hx).
    assert (Hgx : x = PInf \/ F64.is_finite x = true).
    { unfold good in Hgood. rewrite Forall_lookup in Hgood. by eapply Hgood. }
    destruct (add_finite x _ Hgx Hfin) as [H1 H2].
    split; [by apply Forall_insert|].
    intros j Hj. destruct (decide (k = j)) as [<-|Hne].
    + rewrite list_lookup_insert_eq by done. f_equal. apply H2. congruence.
    + by rewrite list_lookup_insert_ne.
  - rewrite list_insert_ge by lia. done.
Qed.

Lemma interior_loop (indices : list nat) (s : vec) (r : float64)
    (js : list nat) (d : vec) :
  (forall i, i ∈ js ->
     F64.is_finite ((s !!! (i + 1)%nat - s !!! (i - 1)%nat) / r)%F = true) ->
  good d ->
  good (foldl (crowding_interior indices s r) d js)
  /\ forall j, d !! j = Some PInf ->
       foldl (crowding_interior indices s r) d js !! j = Some PInf.
Proof.
  revert d. induction js as [|i js IH]; intros d Hfin Hgood; simpl; [done|].
  destruct (interior_step indices s r d i) as [H1 H2];
    [apply Hfin, list_elem_of_here|done|].
  destruct (IH (crowding_interior indices s r d i)) as [H3 H4];
    [intros i' Hi'; by apply Hfin, list_elem_of_further|done|].
  split; [done|]. intros j Hj. by apply H4, H2.
Qed.

(** The values of column [m0] in sorted order are finite. *)
Lemma sorted_value_finite (argsort : argsort_fn) (m : nat) (front : list vec)
    (m0 p : nat) :
  argsort_spec argsort -> finite_front m front ->
  (m0 < m)%nat -> (p < length front)%nat ->
  F64.is_finite
    (map (fun i => column front m0 !!! i) (argsort (column front m0)) !!! p)
  = true.
Proof.
  intros Hspec Hfront Hm0 Hp.
  set (col := column front m0).
  assert (Hlen : length col = length front) by apply length_map.
  assert (Hp' : (p < length (argsort col))%nat).
  { by rewrite (argsort_length argsort col Hspec), Hlen. }
  destruct (lookup_lt_is_Some_2 _ _ Hp') as [k Hk].
  assert (Hkl : (k < length front)%nat).
  { rewrite <- Hlen. apply (argsort_elem argsort col k Hspec).
    by eapply list_elem_of_lookup_2. }
  destruct (lookup_lt_is_Some_2 _ _ Hkl) as [row Hrow].
  destruct (Hfront row) as [Hrl Hrf]; [by eapply list_elem_of_lookup_2|].
  assert (Hm0' : (m0 < length row)%nat) by lia.
  destruct (lookup_lt_is_Some_2 _ _ Hm0') as [x Hx].
  erewrite list_lookup_total_correct.
  2:{ rewrite list_lookup_fmap, Hk. simpl. reflexivity. }
  erewrite list_lookup_total_correct.
  2:{ unfold col, column. rewrite list_lookup_fmap, Hrow. simpl. reflexivity. }
  rewrite (list_lookup_total_correct _ _ _ Hx).
  apply Hrf. by eapply list_elem_of_lookup_2.
Qed.

Lemma sub_finite (a b : float64) :
  F64.is_finite a = true -> F64.is_finite b = true ->
  F64.is_finite (a - b)%F = true.
Proof. by destruct a, b. Qed.

(** One objective of the loop: distances stay finite or infinite, infinite
    ones stay so, and the two boundary entries of the objective are infinite
    afterwards. *)
Lemma objective_step (argsort : argsort_fn) (m : nat) (front : list vec)
    (d : vec) (m0 : nat) :
  argsort_spec argsort -> finite_front m front ->
  (3 <= length front)%nat -> (m0 < m)%nat ->
  length d = length front -> good d ->
  let d' := crowding_objective argsort front (length front) d m0 in
  let indices := argsort (column front m0) in
  good d'
  /\ (forall j, d !! j = Some PInf -> d' !! j = Some PInf)
  /\ d' !! (indices !!! 0%nat) = Some PInf
  /\ d' !! (indices !!! (length front - 1)%nat) = Some PInf.
Proof.
  intros Hspec Hfront Hn Hm0 Hlen Hgood d' indices.
  set (n := length front) in *.
  set (col := column front m0) in *.
  set (s := map (fun i => col !!! i) indices).
  set (d1 := <[indices !!! 0%nat := PInf]> d).
  set (d2 := <[indices !!! (n - 1)%nat := PInf]> d1).
  set (r := (s !!! (n - 1)%nat - s !!! 0%nat)%F).
  assert (Hcol : length col = n) by apply length_map.
  assert (Hidx : forall p, (p < n)%nat -> (indices !!! p < n)%nat).
  { intros p Hp. rewrite <- Hcol.
    apply (argsort_elem argsort col _ Hspec).
    apply list_elem_of_lookup_total_2.
    by rewrite (argsort_length argsort col Hspec), Hcol. }
  assert (Hs : forall p, (p < n)%nat -> F64.is_finite (s !!! p) = true).
  { intros p Hp. by apply (sorted_value_finite argsort m front m0 p). }
  assert (Hg1 : good d1) by (apply Forall_insert; [done|by left]).
  assert (Hg2 : good d2) by (apply Forall_insert; [done|by left]).
  assert (Hp1 : forall j, d !! j = Some PInf -> d1 !! j = Some PInf).
  { intros j Hj. unfold d1.
    destruct (decide (indices !!! 0%nat = j)) as [<-|Hne].
    - apply list_lookup_insert_eq. rewrite Hlen. apply Hidx. lia.
    - by rewrite list_lookup_insert_ne. }
  assert (Hp2 : forall j, d1 !! j = Some PInf -> d2 !! j = Some PInf).
  { intros j Hj. unfold d2.
    destruct (decide (indices !!! (n - 1)%nat = j)) as [<-|Hne].
    - apply list_lookup_insert_eq. unfold d1. rewrite length_insert, Hlen.
      apply Hidx. lia.
    - by rewrite list_lookup_insert_ne. }
  assert (Hb1 : d2 !! (indices !!! 0%nat) = Some PInf).
  { apply Hp2. unfold d1. apply list_lookup_insert_eq.
    rewrite Hlen. apply Hidx. lia. }
  assert (Hb2 : d2 !! (indices !!! (n - 1)%nat) = Some PInf).
  { unfold d2. apply list_lookup_insert_eq. unfold d1.
    rewrite length_insert, Hlen. apply Hidx. lia. }
  unfold d', crowding_objective. cbv zeta.
  fold col. fold indices. fold s. fold d1. fold d2. fold r.
  destruct (F64.lt r (f64 1 10000000000)) eqn:Er.
  - split; [done|]. split; [|done]. intros j Hj. by apply Hp2, Hp1.
  - destruct (interior_loop indices s r (seq 1 (n - 2)) d2) as [H1 H2].
    + intros i Hi. apply elem_of_seq in Hi.
      apply finite_quotient; [apply Hs; lia|apply Hs; lia| |done].
      apply sub_finite; apply Hs; lia.
    + done.
    + split; [done|]. split; [|split; by apply H2].
      intros j Hj. by apply H2, Hp2, Hp1.
Qed.

Lemma objectives_loop (argsort : argsort_fn) (m : nat) (front : list vec)
    (ms : list nat) (d : vec) :
  argsort_spec argsort -> finite_front m front ->
  (3 <= length front)%nat -> (forall m0, m0 ∈ ms -> (m0 < m)%nat) ->
  length d = length front -> good d ->
  let d' := foldl (crowding_objective argsort front (length front)) d ms in
  good d'
  /\ (forall j, d !! j = Some PInf -> d' !! j = Some PInf)
  /\ forall m0, m0 ∈ ms ->
       d' !! (argsort (column front m0) !!! 0%nat) = Some PInf
       /\ d' !! (argsort (column front m0) !!! (length front - 1)%nat)
          = Some PInf.
Proof.
  intros Hspec Hfront Hn. revert d.
  induction ms as [|m0 ms IH]; intros d Hms Hlen Hgood; simpl.
  { split; [done|]. split; [done|]. by intros m0 ?%elem_of_nil. }
  destruct (objective_step argsort m front d m0) as (H1 & H2 & H3 & H4);
    try done; [apply Hms, list_elem_of_here|].
  destruct (IH (crowding_objective argsort front (length front) d m0))
    as (H5 & H6 & H7); try done.
  { intros m1 Hm1. by apply Hms, list_elem_of_further. }
  { by rewrite length_crowding_objective. }
  split; [done|]. split; [intros j Hj; by apply H6, H2|].
  intros m1 [->|Hm1]%elem_of_cons; [|by apply H7].
  split; by apply H6.
Qed.

(** On a front of at least three finite vectors, the two entries that
    [argsort] puts first and last in an objective get distance [+inf]. *)
Lemma boundary_entries_infinite (argsort : argsort_fn) (m : nat)
    (front : list vec) (m0 : nat) :
  argsort_spec argsort -> finite_front m front ->
  (3 <= length front)%nat -> (m0 < m)%nat ->
  crowding_distance argsort front !! (argsort (column front m0) !!! 0%nat)
  = Some PInf
  /\ crowding_distance argsort front
       !! (argsort (column front m0) !!! (length front - 1)%nat)
     = Some PInf.
Proof.
  intros Hspec Hfront Hn Hm0. unfold crowding_distance.
  destruct (length front =? 0)%nat eqn:E0; [apply Nat.eqb_eq in E0; lia|].
  destruct (length front <=? 2)%nat eqn:E2; [apply Nat.leb_le in E2; lia|].
  assert (Hm : length (front !!! 0%nat) = m).
  { destruct front as [|row front]; [simpl in Hn; lia|].
    simpl. apply (Hfront row), list_elem_of_here. }
  rewrite Hm.
  destruct (objectives_loop argsort m front (seq 0 m)
              (replicate (length front) F64.zero)) as (_ & _ & H); try done.
  - intros k Hk%elem_of_seq. lia.
  - apply length_replicate.
  - apply Forall_replicate. by right.
  - apply H, elem_of_seq. lia.
Qed.

End CrowdingFacts.

(** ** Truncation *)
Module TruncateFacts.
Import Pareto ArchiveSpec ArchiveFacts SortFacts CrowdingFacts.

Lemma sort_le_neg (a b : float64) :
  np_sort_le (- a)%F (- b)%F = true -> F64.lt a b = false.
Proof.
  unfold np_sort_le, F64.le, F64.lt, F64.is_nan, F64.neg.
  destruct a, b; simpl; try done. intros H. F64Facts.q_bool.
Qed.

Lemma sort_le_neg_inf (a : float64) :
  np_sort_le (- a)%F (- PInf)%F = true -> a = PInf.
Proof. by destruct a. Qed.

Lemma length_select_full {A} (l : list A) (indices : list nat) :
  (forall i, i ∈ indices -> (i < length l)%nat) ->
  length (select l indices) = length indices.
Proof.
  unfold select, omap. induction indices as [|i indices IH]; intros H; simpl;
    [done|].
  destruct (lookup_lt_is_Some_2 l i) as [x Hx]; [apply H, list_elem_of_here|].
  rewrite Hx. simpl. f_equal. apply IH. intros j Hj.
  by apply H, list_elem_of_further.
Qed.

Lemma elem_of_inf_indices (d : vec) (i : nat) :
  d !! i = Some PInf -> i ∈ inf_indices d.
Proof.
  intros H. unfold inf_indices. apply list_elem_of_In, filter_In. split.
  - apply list_elem_of_In, elem_of_seq. apply lookup_lt_Some in H. lia.
  - by rewrite (list_lookup_total_correct _ _ _ H).
Qed.

Lemma inf_indices_count (d : vec) (l : list nat) :
  NoDup l -> (forall i, i ∈ l -> d !! i = Some PInf) ->
  (length l <= length (inf_indices d))%nat.
Proof.
  intros Hnd H. apply submseteq_length, NoDup_submseteq; [done|].
  intros i Hi. by apply elem_of_inf_indices, H.
Qed.

Section Truncate.
Variable argsort : argsort_fn.
Variable self : ParetoArchiveManager.
Hypothesis Hspec : argsort_spec argsort.
Hypothesis Hsync : in_sync self.
Hypothesis Hover : (max_size self < size self)%nat.

Let dist := crowding_distance argsort (objectives self).
Let keys := map F64.neg dist.
Let kept := truncate_indices argsort self.

Lemma keys_length : length keys = size self.
Proof using Hsync.
  unfold keys, dist, size. rewrite length_map, length_crowding_distance.
  by destruct Hsync as [-> _].
Qed.

Lemma kept_in_range (k : nat) : k ∈ kept -> (k < size self)%nat.
Proof using Hspec Hsync.
  intros Hk. rewrite <- keys_length.
  apply (argsort_elem argsort keys k Hspec).
  eapply (subseteq_take (max_size self)). exact Hk.
Qed.

Lemma kept_length : length kept = max_size self.
Proof using Hspec Hsync Hover.
  unfold kept, truncate_indices. fold dist. fold keys.
  rewrite length_take, (argsort_length argsort keys Hspec), keys_length. lia.
Qed.

Lemma kept_NoDup : NoDup kept.
Proof using Hspec.
  unfold kept, truncate_indices.
  eapply sublist_NoDup; [by apply argsort_NoDup|apply sublist_take].
Qed.

(** An index in range is kept or stands at a later position of the sort. *)
Lemma position_of (i : nat) :
  (i < size self)%nat ->
  exists q, argsort keys !! q = Some i
            /\ (i ∈ kept <-> (q < max_size self)%nat).
Proof using Hspec Hsync.
  intros Hi. rewrite <- keys_length in Hi.
  apply (argsort_elem argsort keys i Hspec) in Hi.
  apply list_elem_of_lookup in Hi as [q Hq]. exists q. split; [done|].
  unfold kept, truncate_indices. fold dist. fold keys.
  rewrite elem_of_take. split.
  - intros (q' & Hq' & Hlt).
    by rewrite (NoDup_lookup _ q q' i (argsort_NoDup argsort keys Hspec) Hq Hq').
  - intros Hlt. by exists q.
Qed.

Lemma key_lookup (i : nat) (x : float64) :
  dist !! i = Some x -> keys !! i = Some (- x)%F.
Proof. intros H. unfold keys. by rewrite list_lookup_fmap, H. Qed.

Lemma kept_before_dropped (k d : nat) (dk dd : float64) :
  k ∈ kept -> d ∉ kept ->
  dist !! k = Some dk -> dist !! d = Some dd ->
  np_sort_le (- dk)%F (- dd)%F = true.
Proof using Hspec Hsync.
  clear Hover. intros Hk Hd Hdk Hdd.
  assert (Hlen : length dist = size self).
  { rewrite <- keys_length. unfold keys. by rewrite length_map. }
  destruct (position_of k) as (p & Hp & Hpk);
    [rewrite <- Hlen; by eapply lookup_lt_Some|].
  destruct (position_of d) as (q & Hq & Hqd);
    [rewrite <- Hlen; by eapply lookup_lt_Some|].
  apply Hpk in Hk.
  assert (Hq' : ~ (q < max_size self)%nat) by (intros ?; by apply Hd, Hqd).
  apply (argsort_sorted argsort Hspec keys p q k d); try done; [lia| |];
    by apply key_lookup.
Qed.
End Truncate.




End TruncateFacts.

(** ** Exceptions *)
Module ResultFacts.

Lemma bind_Ok {A B} (a : A) (k : A -> result B) : (Ok a ≫= k) = k a.
Proof. reflexivity. Qed.

Lemma bind_Raise {A B} (e : exn) (k : A -> result B) :
  (Raise e ≫= k) = Raise e.
Proof. reflexivity. Qed.

Lemma bind_inv_Ok {A B} (m : result A) (k : A -> result B) (b : B) :
  (m ≫= k) = Ok b -> exists a, m = Ok a /\ k a = Ok b.
Proof. destruct m as [a|e]; intros H; [by exists a|discriminate H]. Qed.

Lemma bind_inv_Raise {A B} (m : result A) (k : A -> result B) (e : exn) :
  (m ≫= k) = Raise e -> m = Raise e \/ exists a, m = Ok a /\ k a = Raise e.
Proof.
  destruct m as [a|e']; intros H; [right; by exists a|left].
  by injection H as ->.
Qed.

Lemma foldM_ok {A B} (f : A -> B -> result A) (l : list B) (a : A) :
  (forall a b, b ∈ l -> exists a', f a b = Ok a') ->
  exists a', foldM f a l = Ok a'.
Proof.
  revert a. induction l as [|b l IH]; intros a H; simpl; [by exists a|].
  destruct (H a b) as [a' Ha']; [apply list_elem_of_here|].
  rewrite Ha'. apply IH. intros a0 b0 Hb0. by apply H, list_elem_of_further.
Qed.

Lemma foldM_never {A B} (f : A -> B -> result A) (l : list B) (a : A)
    (e : exn) :
  (forall a b, f a b <> Raise e) -> foldM f a l <> Raise e.
Proof.
  intros H. revert a. induction l as [|b l IH]; intros a; simpl; [done|].
  destruct (f a b) as [a'|e'] eqn:E; [apply IH|].
  intros [= ->]. by apply (H a b).
Qed.

(** An exception of one step of a loop, after steps that succeeded, is the
    exception of the loop. *)
Lemma foldM_raise {A B} (f : A -> B -> result A) (l1 l2 : list B) (b : B)
    (a acc : A) (e : exn) :
  foldM f a l1 = Ok acc -> f acc b = Raise e ->
  foldM f a (l1 ++ b :: l2) = Raise e.
Proof.
  revert a. induction l1 as [|x l1 IH]; intros a; simpl.
  - intros [= ->] H. by rewrite H.
  - destruct (f a x); [apply IH|done].
Qed.

Lemma py_getitem_ok {A} (l : list A) (i : nat) :
  (i < length l)%nat -> exists a, py_getitem l i = Ok a.
Proof.
  intros H. unfold py_getitem.
  destruct (lookup_lt_is_Some_2 l i H) as [a ->]. by exists a.
Qed.

Lemma query_ok {A} (o : option A) : is_Some o -> exists a, query o = Ok a.
Proof. intros [a ->]. by exists a. Qed.

Lemma py_truediv_ok (a b : float64) :
  F64.eqb b F64.zero = false -> py_truediv a b = Ok (a / b)%F.
Proof. unfold py_truediv. by intros ->. Qed.

End ResultFacts.

(** ** The objective evaluator *)
Module EvaluateFacts.
Import Objectives EvalSpec Examples ResultFacts.

Lemma gt_zero_nonzero (e : float64) :
  F64.gt e F64.zero = true -> F64.eqb e F64.zero = false.
Proof.
  unfold F64.gt, F64.lt, F64.eqb, F64.zero. destruct e; try done.
  intros H. apply not_true_iff_false. intros E%Qeq_bool_iff.
  F64Facts.q_bool.
Qed.

Lemma leg_time_of_ok (distance_nm effective_speed : float64) :
  exists t, leg_time_of distance_nm effective_speed = Ok t.
Proof.
  unfold leg_time_of. destruct (F64.gt _ _) eqn:E; [|by eexists].
  rewrite py_truediv_ok by by apply gt_zero_nonzero. by eexists.
Qed.

Lemma leg_time_of_inf (distance_nm effective_speed : float64) :
  F64.gt effective_speed F64.zero = false ->
  leg_time_of distance_nm effective_speed = Ok F64.inf.
Proof. unfold leg_time_of. by intros ->. Qed.

Lemma max_with_one_nonzero (a : float64) :
  F64.eqb (F64.py_max a F64.one) F64.zero = false.
Proof.
  unfold F64.py_max, F64.gt, F64.lt, F64.eqb, F64.one, F64.zero.
  destruct a; try done.
  destruct (negb (Qle_bool 1 q)) eqn:E; [done|].
  apply not_true_iff_false. intros E'%Qeq_bool_iff. F64Facts.q_bool.
Qed.

Lemma evaluate_leg_never_zero_division (np : NumpyMath)
    (self : ObjectiveFunction) (route : Route) (speeds : vec) (acc : totals)
    (i : nat) :
  evaluate_leg np self route speeds acc i <> Raise ZeroDivisionError.
Proof.
  unfold evaluate_leg, py_getitem, query.
  destruct (route !! i) as [[lat1 lon1]|]; [|done].
  destruct (route !! (i + 1)%nat) as [[lat2 lon2]|]; [|done].
  destruct (speeds !! i) as [speed|]; [|done]. simpl.
  destruct (get_resistance _ _ _ _); [|done]. simpl.
  destruct (get_current_vector _ _ _ _) as [[u v]|]; [|done]. simpl.
  destruct (get_storm_risk _ _ _ _); [|done]. simpl.
  destruct (get_piracy_risk _ _ _); [|done]. simpl.
  destruct (get_wave_height _ _ _ _); [|done]. simpl.
  match goal with |- context [leg_time_of ?d ?e] =>
    destruct (leg_time_of_ok d e) as [t ->] end.
  done.
Qed.

Lemma evaluate_leg_ok (np : NumpyMath) (self : ObjectiveFunction)
    (route : Route) (speeds : vec) (acc : totals) (i : nat) :
  ocean_total (ocean self) ->
  (i + 1 < length route)%nat -> (i < length speeds)%nat ->
  exists acc', evaluate_leg np self route speeds acc i = Ok acc'.
Proof.
  intros (_ & _ & Hw & Hc & Hr & Hs & Hp) Hi Hsp. unfold evaluate_leg.
  destruct (py_getitem_ok route i) as [[lat1 lon1] ->]; [lia|].
  destruct (py_getitem_ok route (i + 1)) as [[lat2 lon2] ->]; [lia|].
  destruct (py_getitem_ok speeds i) as [speed ->]; [lia|]. simpl.
  match goal with |- context [query (get_resistance ?o ?a ?b ?c)] =>
    destruct (query_ok _ (Hr a b c)) as [r ->];
    destruct (query_ok _ (Hc a b c)) as [[u v] ->];
    destruct (query_ok _ (Hs a b c)) as [st ->];
    destruct (query_ok _ (Hp a b)) as [pr ->];
    destruct (query_ok _ (Hw a b c)) as [wv ->]
  end. simpl.
  match goal with |- context [leg_time_of ?d ?e] =>
    destruct (leg_time_of_ok d e) as [t ->] end.
  simpl. by eexists.
Qed.

(** A query of a leg that raises makes the leg raise: here the first one. *)
Lemma evaluate_leg_query_raises (np : NumpyMath) (self : ObjectiveFunction)
    (route : Route) (speeds : vec) (acc : totals) (i : nat)
    (p1 p2 : float64 * float64) (speed : float64) :
  route !! i = Some p1 -> route !! (i + 1)%nat = Some p2 ->
  speeds !! i = Some speed ->
  get_resistance (ocean self) ((p1.1 + p2.1) / f64 2 1)%F
    ((p1.2 + p2.2) / f64 2 1)%F (current_time acc) = None ->
  evaluate_leg np self route speeds acc i = Raise OceanQueryError.
Proof.
  intros H1 H2 H3 Hq. unfold evaluate_leg, py_getitem.
  rewrite H1, H2, H3. destruct p1, p2. simpl in *. by rewrite Hq.
Qed.

Lemma evaluate_unfold (np : NumpyMath) (self : ObjectiveFunction)
    (route : Route) (speeds : option vec) :
  (2 <= length route)%nat ->
  evaluate np self route speeds
  = (acc ← foldM (evaluate_leg np self route (speeds_used self route speeds))
             (legs_start self) (seq 0 (length route - 1));
     avg_wave ← py_truediv (total_wave_exposure acc)
                  (F64.py_max (total_time acc) F64.one);
     mret {| fuel := total_fuel acc; time := total_time acc;
             risk := F64.py_min F64.one (total_risk acc);
             emissions := (total_fuel acc * CO2_FACTOR)%F;
             comfort := F64.py_max F64.zero
                          (F64.one - avg_wave / f64 10 1)%F |}).
Proof.
  intros H. unfold evaluate.
  replace (length route <? 2)%nat with false
    by (symmetry; apply Nat.ltb_ge; lia).
  reflexivity.
Qed.



Lemma evaluate_leg_needs_queries (np : NumpyMath) (self : ObjectiveFunction)
    (route : Route) (speeds : vec) (acc acc' : totals) (i : nat) :
  evaluate_leg np self route speeds acc i = Ok acc' ->
  exists p1 p2,
    route !! i = Some p1 /\ route !! (i + 1)%nat = Some p2
    /\ let mid_lat := ((p1.1 + p2.1) / f64 2 1)%F in
       let mid_lon := ((p1.2 + p2.2) / f64 2 1)%F in
       is_Some (get_resistance (ocean self) mid_lat mid_lon (current_time acc))
       /\ is_Some (get_current_vector (ocean self) mid_lat mid_lon
                     (current_time acc))
       /\ is_Some (get_storm_risk (ocean self) mid_lat mid_lon (current_time acc))
       /\ is_Some (get_piracy_risk (ocean self) mid_lat mid_lon)
       /\ is_Some (get_wave_height (ocean self) mid_lat mid_lon
                     (current_time acc)).
Proof.
  unfold evaluate_leg, py_getitem, query.
  destruct (route !! i) as [[lat1 lon1]|]; [|done].
  destruct (route !! (i + 1)%nat) as [[lat2 lon2]|]; [|done].
  destruct (speeds !! i) as [speed|]; [|done]. simpl.
  destruct (get_resistance _ _ _ _) eqn:E1; [|done]. simpl.
  destruct (get_current_vector _ _ _ _) as [[u v]|] eqn:E2; [|done]. simpl.
  destruct (get_storm_risk _ _ _ _) eqn:E3; [|done]. simpl.
  destruct (get_piracy_risk _ _ _) eqn:E4; [|done]. simpl.
  destruct (get_wave_height _ _ _ _) eqn:E5; [|done]. simpl.
  intros _. exists (lat1, lon1), (lat2, lon2). simpl.
  rewrite E1, E2, E3, E4, E5. by repeat split.
Qed.

Lemma assess_raises (rt : Runtime) (np : NumpyMath) (s : Hacopso.Setup)
    (route : Route) (speeds : vec) (w : world) (e : exn) :
  evaluate np (Hacopso.objective s) route (Some speeds) = Raise e ->
  Hacopso.assess rt np s route speeds w = Raise e.
Proof.
  intros H. unfold Hacopso.assess, mbind, Py_bind, lift. by rewrite H.
Qed.




End EvaluateFacts.

(** ** Effects *)
Module PyFacts.

Lemma Py_bind_inv {A B} (m : Py A) (k : A -> Py B) (w w' : world) (b : B) :
  (m ≫= k) w = Ok (b, w') ->
  exists a w1, m w = Ok (a, w1) /\ k a w1 = Ok (b, w').
Proof.
  unfold mbind, Py_bind. destruct (m w) as [[a w1]|e]; intros H; [|done].
  by exists a, w1.
Qed.

Lemma lift_inv {A} (r : result A) (w w' : world) (a : A) :
  lift r w = Ok (a, w') -> r = Ok a /\ w' = w.
Proof. unfold lift. destruct r; intros H; by simplify_eq. Qed.

Lemma mret_inv {A} (a b : A) (w w' : world) :
  (mret a : Py A) w = Ok (b, w') -> b = a /\ w' = w.
Proof. unfold mret, Py_ret. intros H. by simplify_eq. Qed.

End PyFacts.

(** ** Route repair *)
Module RepairFacts.
Import Constraints RepairSpec Examples ResultFacts PyFacts.

Lemma check_waypoint_land (self : ConstraintHandler) (t : float64) (i : nat)
    (wp : float64 * float64) (vs : list ConstraintViolation) :
  check_waypoint self t i wp = Ok vs ->
  List.filter is_land_violation vs
  = match is_land (ocean self) wp.1 wp.2 with
    | Some true => [land_violation_at i]
    | _ => []
    end.
Proof.
  unfold check_waypoint, query. destruct wp as [lat lon]. simpl.
  destruct (is_land _ _ _) as [on_land|]; [|done]. simpl.
  destruct (get_depth _ _ _) as [depth|]; [|done]. simpl.
  intros H.
  apply bind_inv_Ok in H as (v_depth & Hd & H).
  assert (Hvd : List.filter is_land_violation v_depth = []).
  { unfold mret, result_ret in Hd.
    destruct depth as [d|]; [|by injection Hd as <-].
    destruct (F64.lt d (min_depth self)); [|by injection Hd as <-].
    apply bind_inv_Ok in Hd as (q & _ & Hq). by injection Hq as <-. }
  destruct (get_storm_risk _ _ _ _) as [storm|]; [|done]. simpl in H.
  destruct (get_piracy_risk _ _ _) as [piracy|]; [|done]. simpl in H.
  injection H as <-.
  rewrite !List.filter_app, Hvd.
  destruct on_land;
    repeat match goal with
           | |- context [if ?c then _ else _] => destruct c
           end; reflexivity.
Qed.

Lemma check_waypoints_land (self : ConstraintHandler) (t : float64) (i : nat)
    (route : Route) (vs : list ConstraintViolation) :
  check_waypoints self t i route = Ok vs ->
  List.filter is_land_violation vs
  = map land_violation_at (land_positions (ocean self) i route).
Proof.
  revert i vs. induction route as [|wp rest IH]; intros i vs; simpl.
  - by intros [= <-].
  - intros H. apply bind_inv_Ok in H as (v1 & H1 & H).
    apply bind_inv_Ok in H as (v2 & H2 & H). injection H as <-.
    rewrite List.filter_app, (check_waypoint_land _ _ _ _ _ H1), (IH _ _ H2).
    by destruct (is_land _ _ _) as [[|]|].
Qed.

(** A check without speeds, time or fuel reads the clock once and reports as
    land violations exactly the waypoints on land, in order. *)
Lemma check_route_land (rt : Runtime) (self : ConstraintHandler) (route : Route)
    (w w' : world) (vs : list ConstraintViolation) :
  check_route rt self route None None None w = Ok (vs, w') ->
  List.filter is_land_violation vs
  = map land_violation_at (land_positions (ocean self) 0 route)
  /\ rng_pos w' = rng_pos w /\ clock_pos w' = S (clock_pos w).
Proof.
  unfold check_route. intros H.
  apply Py_bind_inv in H as (t & w1 & Ht & H).
  unfold time_or_now, datetime_now in Ht. injection Ht as <- <-.
  apply Py_bind_inv in H as (v1 & w2 & H1 & H).
  apply lift_inv in H1 as [H1 ->].
  apply Py_bind_inv in H as (v2 & w3 & H2 & H).
  apply lift_inv in H2 as [H2 ->]. unfold check_fuel in H2.
  assert (v2 = []) as ->.
  { unfold mret, result_ret in H2.
    destruct (max_fuel self); by injection H2 as <-. }
  apply mret_inv in H as [-> ->]. simpl.
  rewrite app_nil_r. split; [|done].
  exact (check_waypoints_land self _ 0 route v1 H1).
Qed.

Lemma first_off_land_Some (ocn : OceanGrid) (cands : list (float64 * float64))
    (c : float64 * float64) :
  first_off_land ocn cands = Ok (Some c) ->
  exists before after,
    cands = before ++ c :: after
    /\ is_land ocn c.1 c.2 = Some false
    /\ forall x, x ∈ before -> is_land ocn x.1 x.2 = Some true.
Proof.
  induction cands as [|x cands IH]; simpl; [done|].
  unfold query. destruct (is_land ocn x.1 x.2) as [[|]|] eqn:E; simpl; [| |done].
  - intros (before & after & -> & Hc & Hb)%IH.
    exists (x :: before), after. split; [done|]. split; [done|].
    intros y [->|Hy]%elem_of_cons; [done|by apply Hb].
  - intros [= <-]. exists [], cands. split; [done|]. split; [done|].
    by intros y ?%elem_of_nil.
Qed.

Lemma first_off_land_None (ocn : OceanGrid) (cands : list (float64 * float64)) :
  first_off_land ocn cands = Ok None ->
  forall x, x ∈ cands -> is_land ocn x.1 x.2 = Some true.
Proof.
  induction cands as [|x cands IH]; simpl; [by intros _ y ?%elem_of_nil|].
  unfold query. destruct (is_land ocn x.1 x.2) as [[|]|] eqn:E; simpl;
    [|done|done].
  intros H y [->|Hy]%elem_of_cons; [done|by apply IH].
Qed.

(** What one repair does to the route: nothing, or the waypoint at an
    interior index moves to where the search from it ends. *)
Lemma repair_violation_spec (directions : list (Z * Z))
    (self : ConstraintHandler) (repaired r' : Route) (idx : nat) :
  repair_violation directions self repaired (land_violation_at idx) = Ok r' ->
  r' = repaired
  \/ exists x c,
       (0 < idx < length repaired - 1)%nat
       /\ repaired !! idx = Some x
       /\ first_free (ocean self) directions x c
       /\ r' = <[idx := c]> repaired.
Proof.
  unfold repair_violation. simpl.
  destruct (idx =? 0)%nat eqn:E0; simpl; [intros [= <-]; by left|].
  destruct (idx =? length repaired - 1)%nat eqn:E1; simpl;
    [intros [= <-]; by left|].
  apply Nat.eqb_neq in E0, E1.
  unfold py_getitem. destruct (repaired !! idx) as [x|] eqn:Hx; [|done]. simpl.
  intros H. apply bind_inv_Ok in H as (found & Hf & H).
  destruct found as [c|]; injection H as <-; [|by left].
  right. exists x, c. apply lookup_lt_Some in Hx as Hlt.
  split; [lia|]. split; [done|]. split; [|done].
  by apply first_off_land_Some.
Qed.

Lemma land_positions_spec (ocn : OceanGrid) (i j : nat) (route : Route) :
  j ∈ land_positions ocn i route ->
  (i <= j)%nat
  /\ exists x, route !! (j - i)%nat = Some x /\ is_land ocn x.1 x.2 = Some true.
Proof.
  revert i. induction route as [|wp rest IH]; intros i; simpl.
  - by intros ?%elem_of_nil.
  - assert (Hrest : j ∈ land_positions ocn (S i) rest ->
                    (i <= j)%nat
                    /\ exists x, (wp :: rest) !! (j - i)%nat = Some x
                                 /\ is_land ocn x.1 x.2 = Some true).
    { intros (Hle & x & Hx & Hl)%IH. split; [lia|]. exists x. split; [|done].
      by replace (j - i)%nat with (S (j - S i)) by lia. }
    destruct (is_land ocn wp.1 wp.2) as [[|]|] eqn:E; try done.
    intros [->|Hj]%elem_of_cons; [|by apply Hrest].
    split; [done|]. exists wp. by rewrite Nat.sub_diag.
Qed.

Lemma land_positions_NoDup (ocn : OceanGrid) (i : nat) (route : Route) :
  NoDup (land_positions ocn i route).
Proof.
  revert i. induction route as [|wp rest IH]; intros i; simpl;
    [constructor|].
  destruct (is_land ocn wp.1 wp.2) as [[|]|]; try apply IH.
  constructor; [|apply IH].
  intros [Hle _]%land_positions_spec. lia.
Qed.

(** The repairs of one pass, on the land positions [idxs] of the route [r0]
    the pass started from. *)
Lemma repair_fold (directions : list (Z * Z)) (self : ConstraintHandler)
    (r0 : Route) (idxs : list nat) (repaired r' : Route) :
  NoDup idxs ->
  length repaired = length r0 ->
  (forall j, j ∈ idxs -> repaired !! j = r0 !! j) ->
  foldM (repair_violation directions self) repaired
    (map land_violation_at idxs) = Ok r' ->
  length r' = length r0
  /\ forall i,
       r' !! i = repaired !! i
       \/ (i ∈ idxs /\ (0 < i < length r0 - 1)%nat
           /\ exists x c, r0 !! i = Some x
                          /\ first_free (ocean self) directions x c
                          /\ r' !! i = Some c).
Proof.
  revert repaired. induction idxs as [|idx rest IH];
    intros repaired Hnd Hlen Hsame; simpl.
  - intros [= <-]. split; [done|]. by left.
  - intros H. apply bind_inv_Ok in H as (r1 & H1 & H).
    apply NoDup_cons in Hnd as [Hni Hnd].
    apply repair_violation_spec in H1 as [->|(x & c & Hidx & Hx & Hfree & ->)].
    + destruct (IH repaired Hnd Hlen) as [Hl Hall]; [|done|].
      { intros j Hj. by apply Hsame, list_elem_of_further. }
      split; [done|]. intros i. destruct (Hall i) as [?|(Hi & ?)]; [by left|].
      right. split; [by apply list_elem_of_further|done].
    + destruct (IH (<[idx := c]> repaired) Hnd) as [Hl Hall]; [| |done|].
      { by rewrite length_insert. }
      { intros j Hj. rewrite list_lookup_insert_ne by (intros ->; done).
        by apply Hsame, list_elem_of_further. }
      split; [done|]. intros i. destruct (Hall i) as [Hi|(Hi & ?)].
      * destruct (decide (i = idx)) as [->|Hne].
        -- right. split; [apply list_elem_of_here|]. split; [lia|].
           exists x, c. split; [|split; [done|]].
           ++ rewrite <- Hsame by apply list_elem_of_here. done.
           ++ rewrite Hi. apply list_lookup_insert_eq.
              by eapply lookup_lt_Some.
        -- left. rewrite Hi. by apply list_lookup_insert_ne.
      * right. split; [by apply list_elem_of_further|done].
Qed.

(** One pass reads the clock once; it stops the repair when no waypoint is
    on land, and else moves waypoints that are on land, each to where the
    search from it ends. *)
Lemma repair_pass_spec (rt : Runtime) (directions : list (Z * Z))
    (self : ConstraintHandler) (r : Route) (w w' : world) (pass : option Route) :
  repair_pass rt directions self r w = Ok (pass, w') ->
  rng_pos w' = rng_pos w /\ clock_pos w' = S (clock_pos w)
  /\ match pass with
     | None => land_positions (ocean self) 0 r = []
     | Some r1 =>
         length r1 = length r
         /\ forall i,
              r1 !! i = r !! i
              \/ ((0 < i < length r - 1)%nat
                  /\ exists x c, r !! i = Some x
                                 /\ is_land (ocean self) x.1 x.2 = Some true
                                 /\ first_free (ocean self) directions x c
                                 /\ r1 !! i = Some c)
     end.
Proof.
  unfold repair_pass. intros H.
  apply Py_bind_inv in H as (vs & w1 & Hc & H).
  apply check_route_land in Hc as (Hland & Hr & Hk).
  rewrite Hland in H.
  destruct (land_positions (ocean self) 0 r) as [|idx rest] eqn:E.
  { simpl in H. apply mret_inv in H as [-> ->]. done. }
  rewrite <- E in H.
  assert (Hne : map land_violation_at (land_positions (ocean self) 0 r) <> [])
    by by rewrite E.
  destruct (map land_violation_at (land_positions (ocean self) 0 r))
    as [|v vs'] eqn:Ev; [done|].
  rewrite <- Ev in H. clear Hne Ev v vs'.
  apply Py_bind_inv in H as (r1 & w2 & Hf & H).
  apply lift_inv in Hf as [Hf ->]. apply mret_inv in H as [-> ->].
  split; [done|]. split; [done|].
  destruct (repair_fold directions self r (land_positions (ocean self) 0 r)
              r r1) as [Hl Hall]; try done.
  { apply land_positions_NoDup. }
  split; [done|]. intros i.
  destruct (Hall i) as [?|(Hi & Hint & x & c & Hx & Hfree & Hc)]; [by left|].
  right. split; [done|]. exists x, c. split; [done|]. split; [|done].
  apply land_positions_spec in Hi as (_ & y & Hy & Hl').
  rewrite Nat.sub_0_r in Hy. congruence.
Qed.

Lemma first_free_off_land (ocn : OceanGrid) (directions : list (Z * Z))
    (x c : float64 * float64) :
  first_free ocn directions x c -> is_land ocn c.1 c.2 = Some false.
Proof. by intros (? & ? & _ & ? & _). Qed.

Lemma repaired_from_refl (ocn : OceanGrid) (directions : list (Z * Z))
    (R : Route) :
  repaired_from ocn directions R R.
Proof. split; [done|]. by left. Qed.

Lemma repair_passes_spec (rt : Runtime) (directions : list (Z * Z))
    (self : ConstraintHandler) (R : Route) (n : nat) (r r' : Route)
    (w w' : world) :
  repaired_from (ocean self) directions R r ->
  repair_passes rt directions self n r w = Ok (r', w') ->
  repaired_from (ocean self) directions R r'
  /\ rng_pos w' = rng_pos w
  /\ (clock_pos w' <= clock_pos w + n)%nat.
Proof.
  revert r w. induction n as [|n IH]; intros r w Hinv; simpl.
  { intros [-> ->]%mret_inv. split; [done|]. split; [done|lia]. }
  intros H. apply Py_bind_inv in H as (pass & w1 & Hp & H).
  apply repair_pass_spec in Hp as (Hr & Hk & Hpass).
  destruct pass as [r1|].
  2:{ apply mret_inv in H as [-> ->]. split; [done|]. split; [done|lia]. }
  destruct Hpass as [Hl Hall].
  destruct (IH r1 w1) as (H1 & H2 & H3); [|done|].
  - destruct Hinv as [Hlen Hinv]. split; [congruence|]. intros i.
    destruct (Hall i) as [Hi|(Hint & y & c & Hy & Hland & Hfree & Hc)].
    { rewrite Hi. apply Hinv. }
    destruct (Hinv i) as [Hi|(_ & x & c' & Hx & _ & Hfree' & Hc')].
    + right. split; [lia|]. exists y, c. rewrite <- Hi. done.
    + apply first_free_off_land in Hfree'. congruence.
  - split; [done|]. split; [congruence|lia].
Qed.




End RepairFacts.

(** ** The HACOPSO engine *)
Module EngineFacts.
Import Hacopso EngineSpec Examples ResultFacts PyFacts.

Lemma raise_inv {A} (e : exn) (w w' : world) (a : A) :
  (raise e : Py A) w = Ok (a, w') -> False.
Proof. done. Qed.

Lemma pin_endpoints_spec (s : Setup) (pos pos' : Route) :
  pin_endpoints s pos = Ok pos' ->
  length pos' = length pos
  /\ ((2 <= length pos)%nat ->
      pos' !! 0%nat = Some (origin s)
      /\ pos' !! (length pos - 1)%nat = Some (destination s)).
Proof.
  unfold pin_endpoints. destruct pos as [|x pos]; [done|].
  intros [= <-]. rewrite !length_insert. split; [done|]. intros Hn.
  simpl in Hn. split.
  - rewrite list_lookup_insert_ne by (simpl; lia). done.
  - apply list_lookup_insert_eq. simpl. lia.
Qed.

Lemma add_interior_spec (pos vel moved : Route) (w w' : world) :
  add_interior pos vel w = Ok (moved, w') ->
  length moved = length pos /\ w' = w.
Proof.
  unfold add_interior.
  destruct (_ =? _)%nat; [|destruct (_ =? _)%nat; [|done]];
    intros [-> ->]%mret_inv; by rewrite length_imap.
Qed.

Lemma assess_inv (rt : Runtime) (np : NumpyMath) (s : Setup) (route : Route)
    (speeds obj : vec) (vs : list Constraints.ConstraintViolation)
    (fit : float64) (w w' : world) :
  assess rt np s route speeds w = Ok (obj, vs, fit, w') ->
  fit = (weighted_sum s obj + Constraints.calculate_penalty vs)%F
  /\ Constraints.check_route rt (constraints s) route (Some speeds) None None w
     = Ok (vs, w').
Proof.
  unfold assess. intros H.
  apply Py_bind_inv in H as (ov & w1 & H1 & H).
  apply lift_inv in H1 as [_ ->].
  apply Py_bind_inv in H as (vs' & w2 & H2 & H).
  apply mret_inv in H as [H ->]. by simplify_eq.
Qed.

(** What the loop body of [iterate] does to a particle. *)
Lemma update_particle_spec (rt : Runtime) (np : NumpyMath) (s : Setup)
    (bounds : bounds_t) (inertia : float64) (gbest : option Route)
    (arch arch' : Pareto.ParetoArchiveManager) (p p' : Particle)
    (w w' : world) :
  update_particle rt np s bounds inertia gbest arch p w = Ok (p', arch', w') ->
  length (position p') = length (position p)
  /\ pinned s p'
  /\ speeds p' = speeds p
  /\ exists obj vs w1,
       Constraints.check_route rt (constraints s) (position p')
         (Some (speeds p)) None None w1 = Ok (vs, w')
       /\ fitness p'
          = (weighted_sum s obj + Constraints.calculate_penalty vs)%F
       /\ personal_best_obj p'
          = if F64.lt (fitness p') (weighted_sum s (personal_best_obj p))
            then obj else personal_best_obj p.
Proof.
  unfold update_particle. intros H.
  apply Py_bind_inv in H as (r1 & w1 & _ & H).
  apply Py_bind_inv in H as (r2 & w2 & _ & H).
  apply Py_bind_inv in H as (leader & w3 & _ & H).
  apply Py_bind_inv in H as (to_pbest & w4 & _ & H).
  apply Py_bind_inv in H as (cognitive & w5 & _ & H).
  apply Py_bind_inv in H as (to_leader & w6 & _ & H).
  apply Py_bind_inv in H as (social & w7 & _ & H).
  apply Py_bind_inv in H as (v1 & w8 & _ & H).
  apply Py_bind_inv in H as (v2 & w9 & _ & H).
  apply Py_bind_inv in H as (moved & w10 & Hmoved & H).
  apply add_interior_spec in Hmoved as [Hmoved ->].
  apply Py_bind_inv in H as (pos & w11 & Hpin & H).
  apply lift_inv in Hpin as [Hpin ->].
  apply pin_endpoints_spec in Hpin as [Hlen Hpin].
  rewrite length_map, Hmoved in Hlen, Hpin.
  apply Py_bind_inv in H as ([[obj vs] fit] & w12 & Hassess & H).
  apply assess_inv in Hassess as [Hfit Hcheck].
  apply mret_inv in H as [H ->]. injection H as -> ->. simpl.
  split; [done|]. split.
  { unfold pinned. simpl. rewrite Hlen. exact Hpin. }
  split; [done|]. by exists obj, vs, w9.
Qed.

Lemma update_particles_spec (rt : Runtime) (np : NumpyMath) (s : Setup)
    (bounds : bounds_t) (inertia : float64) (gbest : option Route)
    (ps ps' : list Particle) (arch arch' : Pareto.ParetoArchiveManager)
    (w w' : world) :
  update_particles rt np s bounds inertia gbest arch ps w = Ok (ps', arch', w') ->
  Forall2 (updated rt s) ps ps'.
Proof.
  revert ps' arch arch' w w'.
  induction ps as [|p ps IH]; intros ps' arch arch' w w'; simpl.
  - intros [H _]%mret_inv. injection H as -> ->. constructor.
  - intros H. apply Py_bind_inv in H as ([p1 arch1] & w1 & Hp & H).
    apply Py_bind_inv in H as ([ps1 arch2] & w2 & Hps & H).
    apply mret_inv in H as [H _]. injection H as -> ->.
    constructor; [|exact (IH _ _ _ _ _ Hps)].
    apply update_particle_spec in Hp as (H1 & H2 & H3 & obj & vs & w0 & H4).
    split; [done|]. split; [done|]. split; [done|]. by exists obj, vs, w0, w1.
Qed.

Lemma updated_decreased (rt : Runtime) (s : Setup) (p p' : Particle) :
  penalties_nonneg rt (constraints s) -> updated rt s p p' ->
  decreased (weighted_sum s (personal_best_obj p))
    (weighted_sum s (personal_best_obj p'))
  /\ best_below_fitness s p'.
Proof.
  intros Hpen (_ & _ & _ & obj & vs & w1 & w' & Hcheck & Hfit & Hbest).
  apply Hpen in Hcheck. rewrite Hbest.
  destruct (F64.lt (fitness p') _) eqn:E.
  - rewrite Hfit in E. split.
    + right. by apply (F64Facts.lt_add_nonneg _ _ _ Hcheck).
    + intros bound Hb. rewrite Hfit in Hb. rewrite Hbest. left.
      by apply (F64Facts.lt_add_nonneg _ _ _ Hcheck).
  - split; [by left|]. intros bound Hb. rewrite Hbest.
    destruct (F64.is_nan (weighted_sum s (personal_best_obj p))) eqn:En;
      [by right|left].
    eapply F64Facts.le_lt_trans; [|exact Hb].
    apply F64Facts.not_lt_le; [|done|done].
    by eapply F64Facts.lt_not_nan_l.
Qed.

Lemma mapM_Py_spec {A B} (f : A -> Py B) (l : list A) (l' : list B)
    (w w' : world) :
  mapM_Py f l w = Ok (l', w') ->
  Forall2 (fun a b => exists w1 w2, f a w1 = Ok (b, w2)) l l'.
Proof.
  revert l' w w'. induction l as [|a l IH]; intros l' w w'; simpl.
  - intros [-> _]%mret_inv. constructor.
  - intros H. apply Py_bind_inv in H as (b & w1 & Hb & H).
    apply Py_bind_inv in H as (bs & w2 & Hbs & H).
    apply mret_inv in H as [-> _].
    constructor; [by exists w, w1|exact (IH _ _ _ Hbs)].
Qed.

Lemma opposition_endpoints (route : Route) (bounds : bounds_t) :
  length (_opposition_route route bounds) = length route
  /\ _opposition_route route bounds !! 0%nat = route !! 0%nat
  /\ _opposition_route route bounds !! (length route - 1)%nat
     = route !! (length route - 1)%nat.
Proof.
  unfold _opposition_route. split; [apply length_imap|].
  rewrite !list_lookup_imap. split.
  - destruct (route !! 0%nat); [|done]. reflexivity.
  - destruct (route !! (length route - 1)%nat) eqn:E; [|done]. simpl.
    apply lookup_lt_Some in E.
    replace (interior (length route) (length route - 1)) with false; [done|].
    unfold interior. symmetry. apply andb_false_iff. right.
    apply Nat.ltb_ge. lia.
Qed.

Lemma oppose_particle_spec (rt : Runtime) (np : NumpyMath) (s : Setup)
    (bounds : bounds_t) (p p' : Particle) (w w' : world) :
  oppose_particle rt np s bounds p w = Ok (p', w') -> opposed p p'.
Proof.
  unfold oppose_particle. intros H.
  apply Py_bind_inv in H as ([[obj vs] fit] & w1 & _ & H).
  apply mret_inv in H as [-> _].
  destruct (F64.lt fit (fitness p)); [|done].
  destruct (opposition_endpoints (position p) bounds) as (H1 & H2 & H3).
  done.
Qed.

Lemma opposed_pinned (s : Setup) (p p' : Particle) :
  opposed p p' -> pinned s p -> pinned s p'.
Proof.
  intros (H1 & H2 & H3 & _) Hp Hn. rewrite H1 in *. rewrite H2, H3.
  by apply Hp.
Qed.

Lemma min_by_fitness_elem (first : Particle) (rest : list Particle) :
  min_by_fitness first rest ∈ first :: rest.
Proof.
  unfold min_by_fitness. revert first.
  induction rest as [|p rest IH]; intros first; simpl; [apply list_elem_of_here|].
  destruct (F64.lt (fitness p) (fitness first)).
  - apply list_elem_of_further, IH.
  - specialize (IH first). apply elem_of_cons in IH as [->|IH].
    + apply list_elem_of_here.
    + by do 2 apply list_elem_of_further.
Qed.

(** What [_update_global_best] does: nothing but the stagnation count moves,
    or the global best becomes the personal best of a particle whose
    fitness is below the weighted sum of the former global best. *)
Lemma update_global_best_spec (self self' : HACOPSOEngine) :
  _update_global_best self = Ok self' ->
  setup self' = setup self /\ particles self' = particles self
  /\ archive self' = archive self
  /\ iteration self' = iteration self
  /\ convergence_history self' = convergence_history self
  /\ is_Some (global_best self') /\ is_Some (global_best_obj self')
  /\ (global_best_obj self' = global_best_obj self
      \/ exists best,
           best ∈ particles self
           /\ global_best_obj self' = Some (personal_best_obj best)
           /\ forall g, is_Some (global_best self) ->
                global_best_obj self = Some g ->
                F64.lt (fitness best) (weighted_sum (setup self) g) = true).
Proof.
  unfold _update_global_best.
  destruct (particles self) as [|first rest] eqn:E; [done|].
  intros H. apply bind_inv_Ok in H as (improved & Himp & H).
  injection H as <-. simpl.
  do 5 (split; [done|]).
  destruct (global_best self) as [gb|] eqn:Egb.
  - destruct (global_best_obj self) as [g|] eqn:Eg; [|done].
    injection Himp as <-.
    destruct (F64.lt _ _) eqn:Elt.
    + split; [done|]. split; [done|]. right.
      exists (min_by_fitness first rest).
      split; [apply min_by_fitness_elem|]. split; [done|].
      intros g' _ [= <-]. done.
    + split; [done|]. split; [done|]. by left.
  - injection Himp as <-. split; [done|]. split; [done|]. right.
    exists (min_by_fitness first rest).
    split; [apply min_by_fitness_elem|]. split; [done|].
    by intros g' [? [=]].
Qed.

(** One call of [iterate], particle by particle and for the global best. *)
Lemma iterate_spec (rt : Runtime) (np : NumpyMath) (self self' : HACOPSOEngine)
    (st : stats) (w w' : world) :
  iterate rt np self w = Ok (st, self', w') ->
  setup self' = setup self
  /\ is_Some (global_best self') /\ is_Some (global_best_obj self')
  /\ iteration self' = S (iteration self)
  /\ length (convergence_history self') = S (length (convergence_history self))
  /\ exists ps1,
       Forall2 (updated rt (setup self)) (particles self) ps1
       /\ Forall2 opposed ps1 (particles self')
       /\ (global_best_obj self' = global_best_obj self
           \/ exists best,
                best ∈ ps1
                /\ global_best_obj self' = Some (personal_best_obj best)
                /\ forall g, is_Some (global_best self) ->
                     global_best_obj self = Some g ->
                     F64.lt (fitness best) (weighted_sum (setup self) g) = true).
Proof.
  unfold iterate. intros H.
  apply Py_bind_inv in H as ([inertia self0] & w1 & Hin & H).
  apply lift_inv in Hin as [Hin ->].
  unfold _chaotic_inertia_weight in Hin.
  apply bind_inv_Ok in Hin as (progress & _ & Hin). injection Hin as <- <-.
  simpl in H.
  apply Py_bind_inv in H as ([ps1 arch1] & w2 & Hps & H).
  apply update_particles_spec in Hps.
  apply Py_bind_inv in H as (self2 & w3 & Hg & H).
  apply lift_inv in Hg as [Hg ->].
  apply update_global_best_spec in Hg
    as (Hs & Hp & Ha & Hi & Hc & Hgb & Hgo & Hbest).
  simpl in Hs, Hp, Ha, Hi, Hc, Hbest.
  apply Py_bind_inv in H as (opposing & w4 & _ & H).
  apply Py_bind_inv in H as (ps2 & w5 & Hopp & H).
  apply Py_bind_inv in H as (best_fit & w6 & _ & H).
  apply mret_inv in H as [H _]. injection H as -> ->. simpl.
  split; [done|]. split; [done|]. split; [done|]. split; [by rewrite Hi|].
  split; [rewrite length_app, Hc; simpl; lia|].
  exists ps1. split; [done|]. split; [|done].
  rewrite Hp in Hopp. destruct opposing.
  - apply mapM_Py_spec in Hopp. eapply Forall2_impl; [exact Hopp|].
    intros p p' (wa & wb & Hpp). by eapply oppose_particle_spec.
  - apply mret_inv in Hopp as [-> _]. apply Forall2_same_length_lookup.
    split; [done|]. intros i p p' H1 H2. assert (p = p') as -> by congruence.
    done.
Qed.

Lemma iterate_pinned (rt : Runtime) (np : NumpyMath) (self self' : HACOPSOEngine)
    (st : stats) (w w' : world) :
  iterate rt np self w = Ok (st, self', w') ->
  setup self' = setup self
  /\ length (particles self') = length (particles self)
  /\ Forall (pinned (setup self)) (particles self').
Proof.
  intros (Hs & _ & _ & _ & _ & ps1 & Hup & Hopp & _)%iterate_spec.
  split; [done|]. split.
  { apply Forall2_length in Hup, Hopp. congruence. }
  apply Forall_lookup. intros i p' Hp'.
  destruct (Forall2_lookup_r _ _ _ _ _ Hopp Hp') as (p1 & Hp1 & Ho).
  destruct (Forall2_lookup_r _ _ _ _ _ Hup Hp1) as (p & Hp & (_ & Hpin & _)).
  by eapply opposed_pinned.
Qed.

Lemma iterate_n_pinned (rt : Runtime) (np : NumpyMath) (n : nat)
    (self self' : HACOPSOEngine) (w w' : world) :
  iterate_n rt np n self w = Ok (self', w') ->
  setup self' = setup self
  /\ length (particles self') = length (particles self)
  /\ (Forall (pinned (setup self)) (particles self) \/ (1 <= n)%nat ->
      Forall (pinned (setup self)) (particles self')).
Proof.
  revert self w. induction n as [|n IH]; intros self w; simpl.
  - intros [-> _]%mret_inv. split; [done|]. split; [done|].
    intros [?|?]; [done|lia].
  - intros H. apply Py_bind_inv in H as ([st self1] & w1 & Hit & H).
    apply iterate_pinned in Hit as (Hs & Hl & Hp).
    apply IH in H as (Hs' & Hl' & Hp'). rewrite Hs in Hs', Hp'.
    split; [done|]. split; [congruence|]. intros _. apply Hp'. by left.
Qed.

Lemma create_particle_position (rt : Runtime) (np : NumpyMath) (s : Setup)
    (route : Route) (p : Particle) (w w' : world) :
  _create_particle rt np s route w = Ok (p, w') -> position p = route.
Proof.
  unfold _create_particle. intros H.
  apply Py_bind_inv in H as (vel & w1 & _ & H).
  destruct route as [|x route]; [done|].
  apply Py_bind_inv in H as (noise & w2 & _ & H).
  apply Py_bind_inv in H as ([[obj vs] fit] & w3 & _ & H).
  by apply mret_inv in H as [-> _].
Qed.

Lemma generate_random_route_pinned (rt : Runtime) (s : Setup) (bounds : bounds_t)
    (route : Route) (w w' : world) :
  _generate_random_route rt s bounds w = Ok (route, w') ->
  (2 <= length route)%nat
  /\ route !! 0%nat = Some (origin s)
  /\ route !! (length route - 1)%nat = Some (destination s).
Proof.
  unfold _generate_random_route. intros H.
  apply Py_bind_inv in H as (inner & w1 & _ & H).
  apply mret_inv in H as [-> _]. simpl. rewrite length_app. simpl.
  split; [lia|]. split; [done|].
  replace (length inner + 1 - 0)%nat with (S (length inner)) by lia.
  change ((inner ++ [destination s]) !! length inner = Some (destination s)).
  rewrite lookup_app_r by lia. by rewrite Nat.sub_diag.
Qed.

Lemma fill_swarm_pinned (rt : Runtime) (np : NumpyMath) (s : Setup)
    (bounds : bounds_t) (remaining : nat) (ps : list Particle) (w w' : world) :
  fill_swarm rt np s bounds remaining w = Ok (ps, w') ->
  Forall (pinned s) ps.
Proof.
  revert ps w w'. induction remaining as [remaining IH] using lt_wf_ind.
  intros ps w w'. destruct remaining as [|[|k]]; simpl.
  - intros [-> _]%mret_inv. constructor.
  - intros H. apply Py_bind_inv in H as (route & w1 & Hr & H).
    apply Py_bind_inv in H as (p & w2 & Hp & H).
    apply mret_inv in H as [-> _].
    apply generate_random_route_pinned in Hr as (_ & H0 & H1).
    apply create_particle_position in Hp.
    constructor; [|constructor]. intros _. by rewrite Hp.
  - intros H. apply Py_bind_inv in H as (route & w1 & Hr & H).
    apply Py_bind_inv in H as (p & w2 & Hp & H).
    apply Py_bind_inv in H as (q & w3 & Hq & H).
    apply Py_bind_inv in H as (rest & w4 & Hrest & H).
    apply mret_inv in H as [-> _].
    apply generate_random_route_pinned in Hr as (_ & H0 & H1).
    apply create_particle_position in Hp, Hq.
    constructor; [intros _; by rewrite Hp|].
    constructor; [|exact (IH k ltac:(lia) _ _ _ Hrest)].
    intros _. rewrite Hq.
    destruct (opposition_endpoints route bounds) as (E1 & E2 & E3).
    rewrite E1, E2, E3. done.
Qed.

Lemma initialize_swarm_cold_pinned (rt : Runtime) (np : NumpyMath)
    (self self' : HACOPSOEngine) (w w' : world) :
  initialize_swarm rt np self None w = Ok (self', w') ->
  setup self' = setup self /\ Forall (pinned (setup self)) (particles self').
Proof.
  unfold initialize_swarm. simpl. rewrite take_nil. simpl. intros H.
  apply Py_bind_inv in H as (seeded & w0 & Hseed & H).
  apply mret_inv in Hseed as [-> ->].
  apply Py_bind_inv in H as (fresh & w1 & Hfresh & H).
  apply lift_inv in H as [H _].
  apply update_global_best_spec in H as (Hs & Hp & _). simpl in Hs, Hp.
  split; [done|]. rewrite Hp. by apply fill_swarm_pinned in Hfresh.
Qed.


(** *** Penalties are non-negative *)

Lemma nonneg_add (a b : float64) : nonneg a -> nonneg b -> nonneg (a + b)%F.
Proof.
  unfold nonneg, F64.le, F64.add, F64.zero. destruct a, b; try done.
  intros; F64Facts.q_bool. rewrite Qred_correct. lra.
Qed.

Lemma nonneg_scale (c : Z) (x : float64) :
  (0 < c)%Z -> nonneg x -> nonneg (f64 c 1 * x)%F.
Proof.
  intros Hc. unfold nonneg, F64.le, F64.mul, F64.zero, f64. destruct x; try done.
  - intros H. F64Facts.q_bool. rewrite !Qred_correct.
    apply Qmult_le_0_compat; [|done]. unfold Qle. simpl. lia.
  - intros _.
    assert (Hq : (0 < Qred (c # 1))%Q).
    { rewrite Qred_correct. unfold Qlt. simpl. lia. }
    destruct (Qeq_bool (Qred (c # 1)) 0) eqn:E.
    { apply Qeq_bool_iff in E. rewrite E in Hq. by apply Qlt_irrefl in Hq. }
    replace (Qle_bool 0 (Qred (c # 1))) with true; [done|].
    symmetry. apply Qle_bool_iff. by apply Qlt_le_weak.
Qed.

(** The severity of an excess over (or a shortfall below) a positive limit. *)
Lemma excess_ratio_nonneg (hi lo m : float64) :
  positive m -> F64.lt lo hi = true -> lo = m \/ hi = m ->
  nonneg (F64.py_min F64.one ((hi - lo) / m)%F).
Proof.
  intros [Hfin Hpos] Hlt Hm. destruct m as [q| | |]; try done.
  unfold F64.lt, F64.zero in Hpos. F64Facts.q_bool.
  assert (Hq0 : Qeq_bool q 0 = false).
  { apply not_true_iff_false. intros E%Qeq_bool_iff. lra. }
  assert (Hq1 : Qle_bool 0 q = true) by (apply Qle_bool_iff; lra).
  unfold nonneg, F64.py_min, F64.sub, F64.div, F64.add, F64.neg.
  destruct Hm as [-> | ->].
  - destruct hi as [x| | |]; try done; simpl in *.
    + rewrite Hq0. F64Facts.q_bool.
      match goal with |- context [F64.lt ?a ?b] => destruct (F64.lt a b) end;
        unfold F64.le, F64.zero, F64.one; [|by F64Facts.q_bool].
      F64Facts.q_bool. rewrite !Qred_correct.
      apply Qle_shift_div_l; lra.
    + by rewrite Hq1.
  - destruct lo as [x| | |]; try done; simpl in *.
    + rewrite Hq0. F64Facts.q_bool.
      match goal with |- context [F64.lt ?a ?b] => destruct (F64.lt a b) end;
        unfold F64.le, F64.zero, F64.one; [|by F64Facts.q_bool].
      F64Facts.q_bool. rewrite !Qred_correct.
      apply Qle_shift_div_l; lra.
    + by rewrite Hq1.
Qed.

Lemma nonneg_of_gt (c x : float64) :
  nonneg c -> F64.lt c x = true -> nonneg x.
Proof.
  intros Hc Hx. eapply F64Facts.le_trans; [exact Hc|by apply F64Facts.lt_le].
Qed.

Lemma risk_violation_severity (kind : string) (i : option nat)
    (x threshold : float64) :
  nonneg threshold ->
  Forall severity_ok
    (if F64.gt x threshold
     then [{| Constraints.constraint_type := kind;
              Constraints.waypoint_index := i;
              Constraints.severity := x |}]
     else []).
Proof.
  intros Hc. destruct (F64.gt x threshold) eqn:E; repeat constructor.
  unfold severity_ok. simpl. by eapply nonneg_of_gt; [|exact E].
Qed.

Lemma check_waypoint_severity (self : Constraints.ConstraintHandler)
    (t : float64) (i : nat) (wp : float64 * float64)
    (vs : list Constraints.ConstraintViolation) :
  handler_wf self -> Constraints.check_waypoint self t i wp = Ok vs ->
  Forall severity_ok vs.
Proof.
  intros (Hd & _) H. unfold Constraints.check_waypoint in H.
  destruct wp as [lat lon]. cbv beta iota in H.
  apply bind_inv_Ok in H as (on_land & _ & H). cbv beta zeta in H.
  apply bind_inv_Ok in H as (depth & _ & H).
  apply bind_inv_Ok in H as (v_depth & Hvd & H).
  assert (Hdepth : Forall severity_ok v_depth).
  { unfold mret, result_ret in Hvd.
    destruct depth as [d|]; [|injection Hvd as <-; constructor].
    destruct (F64.lt d (Constraints.min_depth self)) eqn:E;
      [|injection Hvd as <-; constructor].
    apply bind_inv_Ok in Hvd as (q & Hq & Hvd). injection Hvd as <-.
    unfold py_truediv in Hq. destruct (F64.eqb _ _); [done|].
    injection Hq as <-. constructor; [|constructor].
    apply excess_ratio_nonneg; [done|done|by right]. }
  apply bind_inv_Ok in H as (storm & _ & H). cbv beta zeta in H.
  apply bind_inv_Ok in H as (piracy & _ & H). cbv beta zeta in H.
  unfold mret, result_ret in H. injection H as <-.
  repeat apply Forall_app_2; try done.
  - destruct on_land; repeat constructor.
  - by apply (risk_violation_severity "storm" (Some i) storm (f64 8 10)).
  - by apply (risk_violation_severity "piracy" (Some i) piracy (f64 7 10)).
Qed.

Lemma check_waypoints_severity (self : Constraints.ConstraintHandler)
    (t : float64) (i : nat) (route : Route)
    (vs : list Constraints.ConstraintViolation) :
  handler_wf self -> Constraints.check_waypoints self t i route = Ok vs ->
  Forall severity_ok vs.
Proof.
  intros Hwf. revert i vs. induction route as [|wp rest IH]; intros i vs; simpl.
  - intros [= <-]. constructor.
  - intros H. apply bind_inv_Ok in H as (v1 & H1 & H).
    apply bind_inv_Ok in H as (v2 & H2 & H). injection H as <-.
    apply Forall_app_2; [by eapply check_waypoint_severity|by eapply IH].
Qed.

Lemma check_speed_severity (self : Constraints.ConstraintHandler) (i : nat)
    (speed : float64) :
  handler_wf self -> Forall severity_ok (Constraints.check_speed self i speed).
Proof.
  intros (_ & Hmin & Hmax & _). unfold Constraints.check_speed.
  destruct (F64.lt speed _) eqn:E1.
  { constructor; [|constructor].
    apply excess_ratio_nonneg; [done|done|by right]. }
  destruct (F64.gt speed _) eqn:E2; [|constructor].
  constructor; [|constructor].
  apply excess_ratio_nonneg; [done|done|by left].
Qed.

Lemma check_fuel_severity (self : Constraints.ConstraintHandler)
    (fuel : option float64) (vs : list Constraints.ConstraintViolation) :
  handler_wf self -> Constraints.check_fuel self fuel = Ok vs ->
  Forall severity_ok vs.
Proof.
  intros (_ & _ & _ & Hf). unfold Constraints.check_fuel, mret, result_ret.
  destruct (Constraints.max_fuel self) as [mf|]; [|intros [= <-]; constructor].
  destruct fuel as [fc|]; [|intros [= <-]; constructor].
  destruct (F64.gt fc mf) eqn:E; [|intros [= <-]; constructor].
  intros H. apply bind_inv_Ok in H as (q & Hq & H). injection H as <-.
  unfold py_truediv in Hq. destruct (F64.eqb _ _); [done|].
  injection Hq as <-. constructor; [|constructor].
  apply excess_ratio_nonneg; [done|done|by left].
Qed.

Lemma calculate_penalty_nonneg (vs : list Constraints.ConstraintViolation) :
  Forall severity_ok vs -> nonneg (Constraints.calculate_penalty vs).
Proof.
  unfold Constraints.calculate_penalty.
  assert (H0 : nonneg F64.zero) by reflexivity. revert H0.
  generalize F64.zero. induction vs as [|v vs IH]; intros total Ht Hvs; simpl;
    [done|].
  apply Forall_cons in Hvs as [Hv Hvs]. apply IH; [|done].
  match goal with |- nonneg (if ?c then _ else _) => destruct c end; [|done].
  apply nonneg_add; [done|].
  unfold Constraints.penalty_of.
  repeat match goal with
         | |- context [if ?c then _ else _] => destruct c
         end;
    try (apply nonneg_scale; [lia|exact Hv]); reflexivity.
Qed.

(** A handler with positive limits never reports a negative penalty. *)
Lemma handler_wf_penalties_nonneg (rt : Runtime)
    (handler : Constraints.ConstraintHandler) :
  handler_wf handler -> penalties_nonneg rt handler.
Proof.
  intros Hwf route speeds time fuel w vs w' H. apply calculate_penalty_nonneg.
  unfold Constraints.check_route in H.
  apply Py_bind_inv in H as (t & w1 & _ & H).
  apply Py_bind_inv in H as (v1 & w2 & H1 & H).
  apply lift_inv in H1 as [H1 ->].
  apply Py_bind_inv in H as (v2 & w3 & H2 & H).
  apply lift_inv in H2 as [H2 ->]. apply mret_inv in H as [-> _].
  repeat apply Forall_app_2.
  - by eapply check_waypoints_severity.
  - destruct speeds as [sp|]; [|constructor].
    apply Forall_concat, Forall_lookup. intros i l Hl.
    rewrite list_lookup_imap in Hl.
    destruct (sp !! i) as [x|]; [|done]. injection Hl as <-.
    by apply check_speed_severity.
  - by eapply check_fuel_severity.
Qed.

(** *** Monotone bests *)

Lemma decreased_trans (a b c : float64) :
  decreased a b -> decreased b c -> decreased a c.
Proof.
  intros [->|Hab] [->|Hbc]; [by left|by right|by right|].
  right. by eapply F64Facts.lt_trans.
Qed.

Lemma decreased_or_nan_trans (a b c : float64) :
  decreased_or_nan a b -> decreased_or_nan b c -> decreased_or_nan a c.
Proof.
  intros [->|[Hab|Hab]] [->|[Hbc|Hbc]]; unfold decreased_or_nan; try tauto.
  - right. left. by eapply F64Facts.lt_trans.
  - apply F64Facts.lt_not_nan_r in Hbc. congruence.
Qed.

Lemma decreased_not_above (a b : float64) : decreased a b -> F64.lt a b = false.
Proof.
  intros [->|H]; [apply F64Facts.lt_irrefl|by apply F64Facts.lt_not_lt].
Qed.

Lemma decreased_or_nan_not_above (a b : float64) :
  decreased_or_nan a b -> F64.lt a b = false.
Proof.
  intros [->|[H|H]]; [apply F64Facts.lt_irrefl|by apply F64Facts.lt_not_lt|].
  destruct (F64.lt a b) eqn:E; [|done].
  apply F64Facts.lt_not_nan_r in E. congruence.
Qed.

Lemma iterate_bests (rt : Runtime) (np : NumpyMath) (self self' : HACOPSOEngine)
    (st : stats) (w w' : world) :
  penalties_nonneg rt (constraints (setup self)) ->
  iterate rt np self w = Ok (st, self', w') ->
  setup self' = setup self /\ is_Some (global_best self')
  /\ bests_decreased self self'.
Proof.
  intros Hpen (Hs & Hgb & Hgo & _ & _ & ps1 & Hup & Hopp & Hbest)%iterate_spec.
  split; [done|]. split; [done|]. split.
  - apply Forall2_same_length_lookup. split.
    { apply Forall2_length in Hup, Hopp. congruence. }
    intros i p p' Hp Hp'.
    destruct (Forall2_lookup_r _ _ _ _ _ Hopp Hp') as (p1 & Hp1 & Ho).
    destruct (Forall2_lookup_r _ _ _ _ _ Hup Hp1) as (p0 & Hp0 & Hu).
    assert (p0 = p) as -> by congruence.
    destruct Ho as (_ & _ & _ & ->).
    by apply (updated_decreased rt (setup self) p p1 Hpen).
  - intros Hsome g Hg. destruct Hbest as [Hsame|(best & Hin & Hnew & Hlt)].
    { exists g. split; [congruence|by left]. }
    exists (personal_best_obj best). split; [done|].
    apply list_elem_of_lookup in Hin as [i Hi].
    destruct (Forall2_lookup_r _ _ _ _ _ Hup Hi) as (p0 & Hp0 & Hu).
    destruct (updated_decreased rt (setup self) p0 best Hpen Hu) as [_ Hbelow].
    destruct (Hbelow _ (Hlt g Hsome Hg)) as [H|H]; [right; by left|].
    right. by right.
Qed.

Lemma bests_decreased_refl (self : HACOPSOEngine) : bests_decreased self self.
Proof.
  split.
  - apply Forall2_same_length_lookup. split; [done|].
    intros i p p' H1 H2. assert (p = p') as -> by congruence. by left.
  - intros _ g Hg. exists g. split; [done|by left].
Qed.

Lemma bests_decreased_trans (a b c : HACOPSOEngine) :
  setup b = setup a -> is_Some (global_best b) ->
  bests_decreased a b -> bests_decreased b c -> bests_decreased a c.
Proof.
  intros Hs Hgb [Hp1 Hg1] [Hp2 Hg2]. rewrite Hs in Hp2, Hg2. split.
  - apply Forall2_same_length_lookup. split.
    { apply Forall2_length in Hp1, Hp2. congruence. }
    intros i p p'' Hp Hp''.
    destruct (Forall2_lookup_l _ _ _ _ _ Hp1 Hp) as (p' & Hp' & H1).
    destruct (Forall2_lookup_l _ _ _ _ _ Hp2 Hp') as (q & Hq & H2).
    assert (q = p'') as -> by congruence.
    by eapply decreased_trans.
  - intros Hsome g Hg. destruct (Hg1 Hsome g Hg) as (g' & Hg' & H1).
    destruct (Hg2 Hgb g' Hg') as (g'' & Hg'' & H2).
    exists g''. split; [done|]. by eapply decreased_or_nan_trans.
Qed.

Lemma iterate_n_bests (rt : Runtime) (np : NumpyMath) (n : nat)
    (self self' : HACOPSOEngine) (w w' : world) :
  penalties_nonneg rt (constraints (setup self)) ->
  iterate_n rt np n self w = Ok (self', w') ->
  setup self' = setup self /\ bests_decreased self self'.
Proof.
  revert self w. induction n as [|n IH]; intros self w Hpen; simpl.
  - intros [-> _]%mret_inv. split; [done|apply bests_decreased_refl].
  - intros H. apply Py_bind_inv in H as ([st self1] & w1 & Hit & H).
    apply (iterate_bests rt np self self1 st w w1 Hpen) in Hit
      as (Hs & Hgb & Hb).
    apply IH in H as [Hs' Hb']; [|by rewrite Hs].
    split; [congruence|]. by eapply bests_decreased_trans.
Qed.


(** *** Independence of the wall clock *)

Lemma same_refl {A} (m : Py A) : same m m.
Proof. by intros w. Qed.

Lemma same_bind {A B} (m m' : Py A) (k k' : A -> Py B) :
  same m m' -> (forall a, same (k a) (k' a)) -> same (m ≫= k) (m' ≫= k').
Proof.
  intros Hm Hk w. unfold mbind, Py_bind. rewrite Hm.
  destruct (m' w) as [[a w1]|e]; [apply Hk|done].
Qed.

Lemma same_mapM {A B} (f g : A -> Py B) (l : list A) :
  (forall a, same (f a) (g a)) -> same (mapM_Py f l) (mapM_Py g l).
Proof.
  intros Hfg. induction l as [|a l IH]; simpl; [apply same_refl|].
  apply same_bind; [apply Hfg|]. intros b.
  apply same_bind; [apply IH|]. intros bs. apply same_refl.
Qed.

Ltac same_step :=
  lazymatch goal with
  | |- same (_ ≫= _) (_ ≫= _) => apply same_bind; [|intros ?]
  | |- same (match ?x with _ => _ end) _ => destruct x
  end.

Section Clock.
Variable rt : Runtime.
Variable np : NumpyMath.
Variable clock : nat -> float64.

Lemma check_waypoints_time (h : Constraints.ConstraintHandler) (t t' : float64)
    (i : nat) (route : Route) :
  storm_time_independent (Constraints.ocean h) ->
  Constraints.check_waypoints h t i route
  = Constraints.check_waypoints h t' i route.
Proof.
  intros Hind. revert i. induction route as [|[lat lon] route IH]; intros i; [done|].
  simpl. rewrite (IH (S i)). unfold Constraints.check_waypoint.
  by rewrite (Hind lat lon t t').
Qed.

Lemma check_route_clock (h : Constraints.ConstraintHandler) (route : Route)
    (speeds : option vec) (fuel : option float64) :
  storm_time_independent (Constraints.ocean h) ->
  same (Constraints.check_route (with_clock rt clock) h route speeds None fuel)
    (Constraints.check_route rt h route speeds None fuel).
Proof.
  intros Hind w. unfold Constraints.check_route, Constraints.time_or_now.
  unfold mbind at 1 3, Py_bind, datetime_now. cbv beta iota.
  by rewrite (check_waypoints_time h _ (wall_clock rt (clock_pos w)) 0 route Hind).
Qed.

Variable s : Setup.
Hypothesis Hind : storm_time_independent (Constraints.ocean (constraints s)).

Lemma assess_clock (route : Route) (speeds : vec) :
  same (assess (with_clock rt clock) np s route speeds)
    (assess rt np s route speeds).
Proof.
  unfold assess. same_step; [apply same_refl|].
  same_step; [by apply check_route_clock|]. apply same_refl.
Qed.

Lemma create_particle_clock (route : Route) :
  same (_create_particle (with_clock rt clock) np s route)
    (_create_particle rt np s route).
Proof.
  unfold _create_particle. same_step; [apply same_refl|].
  destruct route; [apply same_refl|].
  same_step; [apply same_refl|]. same_step; [apply assess_clock|].
  apply same_refl.
Qed.

Lemma fill_swarm_clock (bounds : bounds_t) (n : nat) :
  same (fill_swarm (with_clock rt clock) np s bounds n)
    (fill_swarm rt np s bounds n).
Proof.
  induction n as [n IH] using lt_wf_ind. destruct n as [|[|n]]; simpl.
  - apply same_refl.
  - same_step; [apply same_refl|]. same_step; [apply create_particle_clock|].
    apply same_refl.
  - same_step; [apply same_refl|]. same_step; [apply create_particle_clock|].
    same_step; [apply create_particle_clock|].
    same_step; [apply IH; lia|]. apply same_refl.
Qed.

Lemma update_particle_clock (bounds : bounds_t) (inertia : float64)
    (gbest : option Route) (arch : Pareto.ParetoArchiveManager) (p : Particle) :
  same (update_particle (with_clock rt clock) np s bounds inertia gbest arch p)
    (update_particle rt np s bounds inertia gbest arch p).
Proof.
  unfold update_particle.
  do 11 (same_step; [apply same_refl|]).
  same_step; [apply assess_clock|]. apply same_refl.
Qed.

Lemma update_particles_clock (bounds : bounds_t) (inertia : float64)
    (gbest : option Route) (ps : list Particle)
    (arch : Pareto.ParetoArchiveManager) :
  same (update_particles (with_clock rt clock) np s bounds inertia gbest arch ps)
    (update_particles rt np s bounds inertia gbest arch ps).
Proof.
  revert arch. induction ps as [|p ps IH]; intros arch; simpl;
    [apply same_refl|].
  same_step; [apply update_particle_clock|]. destruct a as [p' arch'].
  same_step; [apply IH|]. apply same_refl.
Qed.

Lemma oppose_particle_clock (bounds : bounds_t) (p : Particle) :
  same (oppose_particle (with_clock rt clock) np s bounds p)
    (oppose_particle rt np s bounds p).
Proof.
  unfold oppose_particle. same_step; [apply assess_clock|]. apply same_refl.
Qed.

End Clock.

Lemma iterate_clock (rt : Runtime) (np : NumpyMath) (clock : nat -> float64)
    (self : HACOPSOEngine) :
  time_invariant self ->
  same (iterate (with_clock rt clock) np self) (iterate rt np self).
Proof.
  intros Hind. unfold iterate.
  same_step; [apply same_refl|]. destruct a as [inertia self1].
  same_step; [by apply update_particles_clock|]. destruct a as [ps arch].
  same_step; [apply same_refl|]. same_step; [apply same_refl|].
  same_step; [|apply same_refl].
  destruct a0; [|apply same_refl].
  apply same_mapM. intros p. by apply oppose_particle_clock.
Qed.

Lemma optimize_loop_clock (rt : Runtime) (np : NumpyMath)
    (clock : nat -> float64) (n : nat) (self : HACOPSOEngine) :
  time_invariant self ->
  same (optimize_loop (with_clock rt clock) np n self)
    (optimize_loop rt np n self).
Proof.
  revert self. induction n as [|n IH]; intros self Hind; simpl;
    [apply same_refl|].
  intros w. unfold mbind at 1 2, Py_bind.
  rewrite (iterate_clock rt np clock self Hind).
  destruct (iterate rt np self w) as [[[st self1] w1]|e] eqn:Hit; [|done].
  apply iterate_spec in Hit as [Hs _].
  destruct (_ <=? _)%nat; [done|]. apply IH. unfold time_invariant. by rewrite Hs.
Qed.

Lemma initialize_swarm_clock (rt : Runtime) (np : NumpyMath)
    (clock : nat -> float64) (self : HACOPSOEngine)
    (warm_start : option (list Route)) :
  time_invariant self ->
  same (initialize_swarm (with_clock rt clock) np self warm_start)
    (initialize_swarm rt np self warm_start).
Proof.
  intros Hind. unfold initialize_swarm.
  same_step; [apply same_mapM; intros r; by apply create_particle_clock|].
  same_step; [by apply fill_swarm_clock|]. apply same_refl.
Qed.

Lemma initialize_swarm_setup (rt : Runtime) (np : NumpyMath)
    (self self' : HACOPSOEngine) (warm_start : option (list Route))
    (w w' : world) :
  initialize_swarm rt np self warm_start w = Ok (self', w') ->
  setup self' = setup self.
Proof.
  unfold initialize_swarm. intros H.
  apply Py_bind_inv in H as (seeded & w0 & _ & H).
  apply Py_bind_inv in H as (fresh & w1 & _ & H).
  apply lift_inv in H as [H _].
  by apply update_global_best_spec in H as (Hs & _).
Qed.

Lemma optimize_clock (rt : Runtime) (np : NumpyMath) (clock : nat -> float64)
    (self : HACOPSOEngine) (warm_start : option (list Route)) :
  time_invariant self ->
  same (optimize (with_clock rt clock) np self warm_start)
    (optimize rt np self warm_start).
Proof.
  intros Hind w. unfold optimize. unfold mbind at 1 3, Py_bind.
  rewrite (initialize_swarm_clock rt np clock self warm_start Hind).
  destruct (initialize_swarm rt np self warm_start w) as [[self1 w1]|e] eqn:Hi;
    [|done].
  apply initialize_swarm_setup in Hi.
  apply same_bind; [|intros a; apply same_refl].
  rewrite Hi. apply optimize_loop_clock. unfold time_invariant. by rewrite Hi.
Qed.

(** C3: the engine takes no seed; its draws come from NumPy's process-wide
    stream and [check_route] reads the wall clock.  Two runs with the same
    configuration, the same ocean and the same values drawn from that stream
    give the same result (iteration count, convergence history, archive in
    order, final engine) whatever their clocks read, provided the storm risk
    of the ocean does not depend on the time of the query. *)
Theorem runs_agree_up_to_clock (rt : Runtime) (np : NumpyMath)
    (clock : nat -> float64) (config : HACOPSOConfig)
    (objective_func : Objectives.ObjectiveFunction)
    (constraint_handler : Constraints.ConstraintHandler)
    (origin destination : waypoint) (weights : option vec)
    (warm_start : option (list Route)) (w : world) :
  storm_time_independent (Constraints.ocean constraint_handler) ->
  run (with_clock rt clock) np config objective_func constraint_handler
    origin destination weights warm_start w
  = run rt np config objective_func constraint_handler origin destination
      weights warm_start w.
Proof.
  intros Hind. unfold run. unfold mbind at 1 2, Py_bind.
  change (__init__ (with_clock rt clock)) with (__init__ rt).
  destruct (__init__ rt config objective_func constraint_handler origin
              destination weights w) as [[self w1]|e] eqn:Hi; [|done].
  unfold __init__ in Hi. apply Py_bind_inv in Hi as (chaos & w0 & _ & Hi).
  apply mret_inv in Hi as [Hself _]. apply optimize_clock.
  unfold time_invariant. by rewrite Hself.
Qed.

Lemma runs_agree_up_to_clock_witness :
  let o := storm_until (f64 9 10) PInf in
  run (constant_runtime (f64 1 2) (f64 2000 1)) np_exact (small_config 2)
    (objective_on o) (handler_on o) harbour harbour None None start
  = run (constant_runtime (f64 1 2) (f64 500 1)) np_exact (small_config 2)
      (objective_on o) (handler_on o) harbour harbour None None start.
Proof.
  intros o.
  apply (runs_agree_up_to_clock (constant_runtime (f64 1 2) (f64 500 1))
           np_exact (fun _ => f64 2000 1)).
  intros lat lon t t'. simpl. by destruct t, t'.
Defined.

Lemma clock_changes_convergence :
  let o := storm_until (f64 9 10) (f64 1000 1) in
  let run_at t :=
    run (constant_runtime (f64 1 2) t) np_exact (small_config 1)
      (objective_on o) (handler_on o) harbour harbour None None start in
  convergence_of (run_at (f64 500 1)) = Some [f64 27000 1]
  /\ convergence_of (run_at (f64 2000 1)) = Some [F64.zero]
  /\ convergence_of (run_at (f64 500 1)) <> convergence_of (run_at (f64 2000 1)).
Proof.
  intros o run_at.
  assert (H1 : convergence_of (run_at (f64 500 1)) = Some [f64 27000 1])
    by (vm_compute; reflexivity).
  assert (H2 : convergence_of (run_at (f64 2000 1)) = Some [F64.zero])
    by (vm_compute; reflexivity).
  split; [done|]. split; [done|]. rewrite H1, H2. discriminate.
Qed.




End EngineFacts.
